(** * Minervini trend screener: a shallow embedding of [main.py]

    The screener downloads a daily price series per ticker, annotates it with
    moving averages and trend flags ([_process_ticker]), tests the flags of the
    most recent row ([check_conditions]) and collects the passing tickers'
    last rows ([run]).

    Conventions of the embedding.
    - A pandas float64 cell is a [float]: either [NaN] or a finite value,
      written as the rational number it equals (a float64 is a dyadic
      rational), so comparisons of cells are exact.  Every comparison with
      [NaN] is false, as in numpy.  Infinite cells are left out: prices are
      finite.
    - The products of lines 89-91 are float64 products, rounded as IEEE-754
      rounds them; they are taken from the standard library's specification
      of binary64 arithmetic ([SFmul], [SFltb]).
    - [rolling(...).mean()] is code of pandas, a running float64 sum that is
      not part of this repository.  The embedding takes the exact mean of
      the window in its place.  The theorems below are about where an
      average is missing and about how the columns computed from the averages
      relate to them; none states the value of an average.  The examples
      use closes that are whole numbers, whose sums and means float64
      computes exactly.
    - A DataFrame is the list of its rows, oldest first.  The raw frame that
      [yf.download] returns has the date index and the five OHLCV columns
      ([bar]); the annotated frame has the ten derived columns as well
      ([arow]).
    - Python exceptions are values of [exn]; code that may raise returns a
      [result]. *)

From Stdlib Require Import String Ascii List ZArith QArith Bool Lia FinFun SpecFloat.
Import ListNotations.

Set Implicit Arguments.

(** ** float64 cells *)

Inductive float : Type :=
| NaN
| Fin (q : Q).

Definition Qlt_bool (x y : Q) : bool :=
  (Qnum x * QDen y <? Qnum y * QDen x)%Z.

(** [a > b] and [a < b] on float64: false as soon as one side is NaN. *)
Definition float_gt (a b : float) : bool :=
  match a, b with
  | Fin x, Fin y => Qlt_bool y x
  | _, _ => false
  end.

(** ** float64 products

    binary64: 53 bits of precision, infinities at exponent 1024. *)
Definition prec64 : Z := 53%Z.
Definition emax64 : Z := 1024%Z.

Fixpoint log2_pow2 (d : positive) : option Z :=
  match d with
  | xH => Some 0%Z
  | xO p => option_map Z.succ (log2_pow2 p)
  | xI _ => None
  end.

(** The float64 that stands for the rational [q].  A dyadic rational is
    rounded to the nearest float64 (ties to even), which changes nothing when
    it is one already.  Any other rational is no value of a float64 cell;
    it is read as the float64 quotient of its numerator and denominator,
    which is how a decimal literal such as 1.82, written [182 # 100], is
    read. *)
Definition Q2SF (q : Q) : spec_float :=
  let q' := Qred q in
  match log2_pow2 (Qden q') with
  | Some s => binary_normalize prec64 emax64 (Qnum q') (- s)%Z false
  | None =>
      SFdiv prec64 emax64
            (binary_normalize prec64 emax64 (Qnum q') 0%Z false)
            (binary_normalize prec64 emax64 (Zpos (Qden q')) 0%Z false)
  end.

Definition to64 (a : float) : spec_float :=
  match a with
  | NaN => S754_nan
  | Fin q => Q2SF q
  end.

(** The float64 literals [1.25], [0.75] and [1.3].  The first two are exact;
    [1.3] is the float64 nearest to 13/10, 5854679515581645 / 2^52. *)
Definition d1_25 : spec_float := binary_normalize prec64 emax64 5%Z (-2)%Z false.
Definition d0_75 : spec_float := binary_normalize prec64 emax64 3%Z (-2)%Z false.
Definition d1_3 : spec_float :=
  binary_normalize prec64 emax64 5854679515581645%Z (-52)%Z false.

(** [a * k] in float64. *)
Definition float_mul (a : float) (k : spec_float) : spec_float :=
  SFmul prec64 emax64 (to64 a) k.

(** [a < b] and [a > b] in float64: false as soon as one side is NaN. *)
Definition lt64 (a b : spec_float) : bool := SFltb a b.
Definition gt64 (a b : spec_float) : bool := SFltb b a.

(** ** Frames *)

(** A row of the downloaded frame.  [Date] is the index label of the row. *)
Record bar : Type := mk_bar {
  Date : Z;
  Open : float;
  High : float;
  Low : float;
  Close : float;
  Volume : Z
}.

(** A row of the annotated frame.  The field for column ['50MA'] is
    [col_50MA] and so on; ['50MA>>'] is [col_50MA_above] and
    ['150MA>200MA'] is [col_150MA_gt_200MA]. *)
Record arow : Type := mk_arow {
  base : bar;
  col_50MA : float;
  col_150MA : float;
  col_200MA : float;
  col_200MA_TREND : Z;
  col_200MA_TREND_1M : bool;
  col_200MA_TREND_3M : bool;
  col_200MA_TREND_6M : bool;
  col_50MA_above : bool;
  col_150MA_gt_200MA : bool;
  col_52WK_TREND : bool
}.

(** ** Rolling windows: [Series.rolling(window=k)]

    pandas evaluates the aggregate at row [i] over the [k] rows ending at
    [i]; with the default [min_periods = k] the result is NaN while fewer
    than [k] rows exist, and whenever a value of the window is NaN. *)

Definition window (k : nat) (xs : list float) (i : nat) : option (list float) :=
  if (k <=? i + 1)%nat then Some (firstn k (skipn (i + 1 - k) xs)) else None.

Fixpoint all_fin (xs : list float) : option (list Q) :=
  match xs with
  | [] => Some []
  | NaN :: _ => None
  | Fin q :: rest =>
      match all_fin rest with
      | Some qs => Some (q :: qs)
      | None => None
      end
  end.

Definition rolling (k : nat) (agg : list Q -> Q) (xs : list float) : list float :=
  map (fun i =>
         match window k xs i with
         | Some w =>
             match all_fin w with
             | Some qs => Fin (agg qs)
             | None => NaN
             end
         | None => NaN
         end)
      (seq 0 (length xs)).

Definition Qsum (qs : list Q) : Q := fold_left Qplus qs 0%Q.

Definition mean (qs : list Q) : Q :=
  (Qsum qs / inject_Z (Z.of_nat (length qs)))%Q.

Definition Qmax2 (a b : Q) : Q := if Qlt_bool a b then b else a.
Definition Qmin2 (a b : Q) : Q := if Qlt_bool b a then b else a.

Definition maximum (qs : list Q) : Q :=
  match qs with
  | [] => 0%Q
  | q :: rest => fold_left Qmax2 rest q
  end.

Definition minimum (qs : list Q) : Q :=
  match qs with
  | [] => 0%Q
  | q :: rest => fold_left Qmin2 rest q
  end.

Definition rolling_mean (k : nat) := rolling k mean.
Definition rolling_max (k : nat) := rolling k maximum.
Definition rolling_min (k : nat) := rolling k minimum.

(** ** The 200-day trend counter (lines 61-75)

    [df.at[idx, '200MA_TREND'] = cnt] addresses the frame by index label:
    every row whose label is [idx] receives [cnt]. *)

Definition at_set (index : list Z) (idx : Z) (v : Z) (col : list Z) : list Z :=
  map (fun dc => if (fst dc =? idx)%Z then v else snd dc) (combine index col).

(** One pass of the [for idx, row in df.iterrows()] loop.  [prev] is
    [prev_200ma]: [None] is Python's [None], [Some x] a float (maybe NaN). *)
Definition next_cnt (prev : option float) (curr : float) (cnt : Z) : Z :=
  match prev with
  | Some p => if float_gt curr p then (cnt + 1)%Z else 0%Z
  | None => 0%Z
  end.

Fixpoint trend_loop (index : list Z) (rows : list (Z * float))
         (cnt : Z) (prev : option float) (col : list Z) : list Z :=
  match rows with
  | [] => col
  | (idx, curr) :: rest =>
      let cnt' := next_cnt prev curr cnt in
      trend_loop index rest cnt' (Some curr) (at_set index idx cnt' col)
  end.

Definition trend_column (index : list Z) (ma200 : list float) : list Z :=
  trend_loop index (combine index ma200) 0%Z None (repeat 0%Z (length index)).

(** ** [_process_ticker] (lines 46-93) *)

Definition WK52 : nat := 52 * 7.

Definition wk52_trend (close mx mn : float) : bool :=
  (lt64 (to64 close) (float_mul mx d1_25) || gt64 (to64 close) (float_mul mx d0_75))
  && gt64 (to64 close) (float_mul mn d1_3).

Definition annotate_row (b : bar) (ma50 ma150 ma200 : float) (trend : Z)
           (mx mn : float) : arow :=
  {| base := b;
     col_50MA := ma50;
     col_150MA := ma150;
     col_200MA := ma200;
     col_200MA_TREND := trend;
     col_200MA_TREND_1M := (trend >=? 30)%Z;
     col_200MA_TREND_3M := (trend >=? 90)%Z;
     col_200MA_TREND_6M := (trend >=? 180)%Z;
     col_50MA_above := float_gt ma50 ma150 && float_gt ma50 ma150;
     col_150MA_gt_200MA := float_gt ma150 ma200;
     col_52WK_TREND := wk52_trend (Close b) mx mn |}.

Definition default_bar : bar :=
  {| Date := 0; Open := NaN; High := NaN; Low := NaN; Close := NaN; Volume := 0 |}.

Definition _process_ticker (df : list bar) : list arow :=
  let close := map Close df in
  let ma50 := rolling_mean 50 close in
  let ma150 := rolling_mean 150 close in
  let ma200 := rolling_mean 200 close in
  let trend := trend_column (map Date df) ma200 in
  let mx := rolling_max WK52 close in
  let mn := rolling_min WK52 close in
  map (fun i =>
         annotate_row (nth i df default_bar)
                      (nth i ma50 NaN) (nth i ma150 NaN) (nth i ma200 NaN)
                      (nth i trend 0%Z)
                      (nth i mx NaN) (nth i mn NaN))
      (seq 0 (length df)).

(** ** Cells, column lookup and exceptions *)

(** A value read out of a row: [row[name]]. *)
Inductive cell : Type :=
| CBool (b : bool)
| CInt (z : Z)
| CFloat (f : float)
| CStr (s : string).

Inductive exn : Type :=
| NoTickerDefined               (* Exception("No ticker defined."), line 105 *)
| IndexError                    (* [df.iloc[-1]] on a frame without rows *)
| KeyError (key : string)       (* [row[key]] for a column that is absent *)
| DownloadError (msg : string). (* whatever [yf.download] raises *)

Inductive result (A : Type) : Type :=
| Ok (a : A)
| Err (e : exn).

Arguments Ok {A} a.
Arguments Err {A} e.

Local Open Scope string_scope.
Local Open Scope list_scope.

(** The columns of an annotated row, in the frame's column order.  The date
    is the index of the frame, not one of its columns. *)
Definition columns (r : arow) : list (string * cell) :=
  [ ("Open", CFloat (Open (base r)));
    ("High", CFloat (High (base r)));
    ("Low", CFloat (Low (base r)));
    ("Close", CFloat (Close (base r)));
    ("Volume", CInt (Volume (base r)));
    ("50MA", CFloat (col_50MA r));
    ("150MA", CFloat (col_150MA r));
    ("200MA", CFloat (col_200MA r));
    ("200MA_TREND", CInt (col_200MA_TREND r));
    ("200MA_TREND_1M", CBool (col_200MA_TREND_1M r));
    ("200MA_TREND_3M", CBool (col_200MA_TREND_3M r));
    ("200MA_TREND_6M", CBool (col_200MA_TREND_6M r));
    ("50MA>>", CBool (col_50MA_above r));
    ("150MA>200MA", CBool (col_150MA_gt_200MA r));
    ("52WK_TREND", CBool (col_52WK_TREND r)) ].

Fixpoint lookup (name : string) (cols : list (string * cell)) : option cell :=
  match cols with
  | [] => None
  | (k, v) :: rest => if String.eqb k name then Some v else lookup name rest
  end.

(** [row[name]] *)
Definition getitem (r : arow) (name : string) : result cell :=
  match lookup name (columns r) with
  | Some v => Ok v
  | None => Err (KeyError name)
  end.

(** [df.iloc[-1]] *)
Definition iloc_last (df : list arow) : result arow :=
  match rev df with
  | r :: _ => Ok r
  | [] => Err IndexError
  end.

(** [v == False]: numpy compares by value, so the integer and the float zero
    equal [False]; NaN and strings do not. *)
Definition cell_eq_False (v : cell) : bool :=
  match v with
  | CBool b => negb b
  | CInt z => (z =? 0)%Z
  | CFloat (Fin q) => Qeq_bool q 0
  | CFloat NaN => false
  | CStr _ => false
  end.

(** ** [check_conditions] (lines 107-128) *)

Definition default_conditions : list string :=
  [ "200MA_TREND_1M"; "200MA_TREND_3M"; "200MA_TREND_6M";
    "50MA>>"; "150MA>200MA"; "52WK_TREND" ].

Fixpoint check_conditions (df : list arow) (conditions : list string) : result bool :=
  match conditions with
  | [] => Ok true
  | condition :: rest =>
      match iloc_last df with
      | Err e => Err e
      | Ok row =>
          match getitem row condition with
          | Err e => Err e
          | Ok v => if cell_eq_False v then Ok false else check_conditions df rest
          end
      end
  end.

(** ** The driver: [load_ticker_data] and [run]

    The data provider is outside the program: [download ticker w] is what
    [yf.download(ticker, START, END, group_by='ticker')] answers in world [w]
    and the world after the call.  The answer is a frame with the OHLCV
    columns (maybe without rows), or the message of the exception the call
    raised.  The state also keeps the trace of the tickers that were passed
    to [yf.download], oldest first. *)

Section Driver.

Variable World : Type.
Variable download : string -> World -> (list bar + string) * World.

Record state : Type := mk_state {
  world : World;
  downloads : list string
}.

Definition M (A : Type) : Type := state -> result A * state.

Definition ret {A} (a : A) : M A := fun s => (Ok a, s).
Definition raise {A} (e : exn) : M A := fun s => (Err e, s).
Definition bind {A B} (m : M A) (f : A -> M B) : M B :=
  fun s =>
    match m s with
    | (Ok a, s') => f a s'
    | (Err e, s') => (Err e, s')
    end.
Definition lift {A} (r : result A) : M A := fun s => (r, s).

Notation "x <- m ;; k" := (bind m (fun x => k))
  (at level 61, m at next level, right associativity).

(** [yf.download(ticker, ...)] *)
Definition yf_download (ticker : string) : M (list bar) :=
  fun s =>
    let (r, w) := download ticker (world s) in
    (match r with
     | inl df => Ok df
     | inr msg => Err (DownloadError msg)
     end,
     {| world := w; downloads := (downloads s ++ [ticker])%list |}).

(** [load_ticker_data] (lines 33-105): [if ticker:] is false for the empty
    string only. *)
Definition load_ticker_data (ticker : string) : M (list arow) :=
  if String.eqb ticker "" then raise NoTickerDefined
  else
    df_ticker <- yf_download ticker ;;
    ret (_process_ticker df_ticker).

(** A row of [df_export]: the ticker, the [Date] column (the export frame
    declares it, but [pd.concat(..., ignore_index=True)] drops the date
    index of the appended row, so the cell stays missing) and the columns of
    the appended row. *)
Definition tag (stock : string) (r : arow) : list (string * cell) :=
  ("Ticker", CStr stock) :: ("Date", CFloat NaN) :: columns r.

Definition export_table : Type := list (list (string * cell)).

(** [tmp_df.empty] *)
Definition empty {A} (df : list A) : bool :=
  match df with
  | [] => true
  | _ :: _ => false
  end.

(** The body of [for stock in stock_list] (lines 161-172). *)
Definition run_step (stock : string) (df_export : export_table) : M export_table :=
  tmp_df <- load_ticker_data stock ;;
  if negb (empty tmp_df) then
    passes <- lift (check_conditions tmp_df default_conditions) ;;
    if passes then
      last_row <- lift (iloc_last tmp_df) ;;
      ret (df_export ++ [tag stock last_row])%list
    else ret df_export
  else ret df_export.

Fixpoint run_loop (stock_list : list string) (df_export : export_table) : M export_table :=
  match stock_list with
  | [] => ret df_export
  | stock :: rest =>
      df_export' <- run_step stock df_export ;;
      run_loop rest df_export'
  end.

(** [stock_list.split(", ")] *)
Fixpoint split_comma_space (s : string) (cur : string) : list string :=
  match s with
  | EmptyString => [cur]
  | String "," (String " " rest) => cur :: split_comma_space rest ""
  | String c rest => split_comma_space rest (cur ++ String c "")%string
  end.

(** What [run] puts on the page below the title and the two widgets. *)
Inductive page : Type :=
| Nothing
| Write_ (msg : string)
| Dataframe (table : export_table).

(** [run] (lines 130-178): [text] is what the text input holds and [pressed]
    whether the button was pressed. *)
Definition run (text : string) (pressed : bool) : M page :=
  if String.eqb text "" then ret Nothing
  else
    let stock_list := split_comma_space text "" in
    if pressed then
      df_export <- run_loop stock_list [] ;;
      if empty df_export then ret (Write_ "No Suitable Tickers")
      else ret (Dataframe df_export)
    else ret Nothing.

End Driver.

(** ** Reference definitions used in the statements *)

(** The data model's price series have unique dates. *)
Definition unique_dates (df : list bar) : Prop := NoDup (map Date df).

(** The streak counter as a scan over the 200-day average, carrying the
    previous value and the count. *)
Fixpoint streak (prev : option float) (cnt : Z) (ma : list float) : list Z :=
  match ma with
  | [] => []
  | curr :: rest =>
      let cnt' := next_cnt prev curr cnt in
      cnt' :: streak (Some curr) cnt' rest
  end.

(** The ten derived columns of a row. *)
Definition derived (r : arow) :=
  (col_50MA r, col_150MA r, col_200MA r, col_200MA_TREND r,
   (col_200MA_TREND_1M r, col_200MA_TREND_3M r, col_200MA_TREND_6M r),
   (col_50MA_above r, col_150MA_gt_200MA r, col_52WK_TREND r)).


(** Synthetic series: [n] rows dated 0, 1, ... whose prices on day [i] are
    all [f i]. *)
Definition series (f : nat -> Q) (n : nat) : list bar :=
  map (fun i => {| Date := Z.of_nat i;
                   Open := Fin (f i); High := Fin (f i); Low := Fin (f i);
                   Close := Fin (f i); Volume := 0 |})
      (seq 0 n).

Definition linear_series (n : nat) : list bar :=
  series (fun i => inject_Z (100 + Z.of_nat i)) n.

Definition flat_series (n : nat) : list bar := series (fun _ => 100%Q) n.

(** Every named column of the row holds the boolean true. *)
Definition all_true (r : arow) (conditions : list string) : Prop :=
  forall c, In c conditions -> getitem r c = Ok (CBool true).

(** The evaluator's contract as the specification words it: on the final
    row, true exactly when every named value is true. *)
Definition evaluator_claim (df : list arow) (conditions : list string) : Prop :=
  forall r, iloc_last df = Ok r ->
            (check_conditions df conditions = Ok true <-> all_true r conditions).

(** Whether [row[c] == False] lets the loop of [check_conditions] go on. *)
Definition passes_cell (r : arow) (c : string) : bool :=
  match getitem r c with
  | Ok v => negb (cell_eq_False v)
  | Err _ => false
  end.

(** Prices that fall from 1000 to 1 and recover to 100. *)
Definition vee (i : nat) : Q :=
  if (i <? 50)%nat then 1000%Q else if (i <? 150)%nat then 1%Q else 100%Q.

(** The same closes under other dates, with the other columns changed. *)
Definition redated (df : list bar) : list bar :=
  map (fun b => {| Date := Date b + 1000; Open := NaN; High := NaN; Low := NaN;
                   Close := Close b; Volume := 7 |})
      df.

(** 202 rising days of which the last two carry the same date. *)
Definition twice_dated : list bar :=
  map (fun i => {| Date := if (i <? 201)%nat then Z.of_nat i else 200;
                   Open := NaN; High := NaN; Low := NaN;
                   Close := Fin (inject_Z (Z.of_nat i)); Volume := 0 |})
      (seq 0 202).

(** The final annotated row of [linear_series 400]. *)
Definition linear_400_last : arow :=
  {| base := {| Date := 399; Open := Fin 499; High := Fin 499; Low := Fin 499;
                Close := Fin 499; Volume := 0 |};
     col_50MA := Fin (23725 # 50);
     col_150MA := Fin (63675 # 150);
     col_200MA := Fin (79900 # 200);
     col_200MA_TREND := 200;
     col_200MA_TREND_1M := true;
     col_200MA_TREND_3M := true;
     col_200MA_TREND_6M := true;
     col_50MA_above := true;
     col_150MA_gt_200MA := true;
     col_52WK_TREND := true |}.

(** The final annotated row of [series vee 200]. *)
Definition vee_200_last : arow :=
  {| base := {| Date := 199; Open := Fin 100; High := Fin 100; Low := Fin 100;
                Close := Fin 100; Volume := 0 |};
     col_50MA := Fin (5000 # 50);
     col_150MA := Fin (5100 # 150);
     col_200MA := Fin (55100 # 200);
     col_200MA_TREND := 0;
     col_200MA_TREND_1M := false;
     col_200MA_TREND_3M := false;
     col_200MA_TREND_6M := false;
     col_50MA_above := true;
     col_150MA_gt_200MA := false;
     col_52WK_TREND := false |}.



(** A provider for the examples: "AAA" has 400 days of rising prices, "ERR"
    makes the download raise, every other symbol is unknown (no rows). *)
Definition demo_download (ticker : string) (w : unit) : (list bar + string) * unit :=
  if String.eqb ticker "AAA" then (inl (linear_series 400), tt)
  else if String.eqb ticker "ERR" then (inr "provider unreachable", tt)
  else (inl [], tt).

Definition demo_start : state unit := {| world := tt; downloads := [] |}.

Section DriverSpec.

Variable World : Type.
Variable download : string -> World -> (list bar + string) * World.

(** The loop of [run] as a relation: [picked st stock_list rows st'] when,
    started in [st], every ticker of [stock_list] loads without an
    exception, [rows] are the tagged final rows of the frames that are not
    empty and pass the default conditions, in the order of the tickers, and
    [st'] is the state at the end. *)
Inductive picked : state World -> list string -> export_table -> state World -> Prop :=
| picked_nil st : picked st [] [] st
| picked_skip st stock tmp st1 rest rows st2 :
    load_ticker_data download stock st = (Ok tmp, st1) ->
    tmp = [] \/ check_conditions tmp default_conditions = Ok false ->
    picked st1 rest rows st2 ->
    picked st (stock :: rest) rows st2
| picked_take st stock tmp r st1 rest rows st2 :
    load_ticker_data download stock st = (Ok tmp, st1) ->
    iloc_last tmp = Ok r ->
    check_conditions tmp default_conditions = Ok true ->
    picked st1 rest rows st2 ->
    picked st (stock :: rest) (tag stock r :: rows) st2.

(** Error isolation as the specification asks for it: whatever happens to
    one ticker, the run ends with a table and every ticker with a symbol has
    been passed to the provider. *)
Definition batch_survives (stock_list : list string) (st : state World) : Prop :=
  exists table st',
    run_loop download stock_list [] st = (Ok table, st') /\
    forall t, In t stock_list -> t <> "" -> In t (downloads st').

End DriverSpec.

(** Reading a text for the separator [", "]. *)
Definition starts_space (s : string) : bool :=
  match s with
  | String c _ => Ascii.eqb c " "
  | EmptyString => false
  end.

Fixpoint ends_comma (s : string) : bool :=
  match s with
  | EmptyString => false
  | String c EmptyString => Ascii.eqb c ","
  | String _ rest => ends_comma rest
  end.

(** The separator occurs somewhere in [s]. *)
Fixpoint has_sep (s : string) : bool :=
  match s with
  | EmptyString => false
  | String c rest => (Ascii.eqb c "," && starts_space rest) || has_sep rest
  end.

Definition string_tail (s : string) : string :=
  match s with
  | String _ r => r
  | EmptyString => EmptyString
  end.

(** What the cells of a table row say when the row comes from a frame that
    passed. *)
Definition row_meets_rules (stock_list : list string) (row : list (string * cell)) : Prop :=
  exists stock trend a b c,
    In stock stock_list /\
    lookup "Ticker" row = Some (CStr stock) /\
    lookup "200MA_TREND" row = Some (CInt trend) /\ (180 <= trend)%Z /\
    lookup "50MA" row = Some (CFloat (Fin a)) /\
    lookup "150MA" row = Some (CFloat (Fin b)) /\
    lookup "200MA" row = Some (CFloat (Fin c)) /\
    (c < b)%Q /\ (b < a)%Q /\
    lookup "52WK_TREND" row = Some (CBool true).

(** 363 closes of 1.0 and then the float64 1.3; 363 closes of the float64
    1.4 and then the float64 1.82. *)
Definition low_then_1_3 (i : nat) : Q :=
  if (i <? 363)%nat then 1%Q else 5854679515581645 # 4503599627370496.

Definition low_then_1_82 (i : nat) : Q :=
  if (i <? 363)%nat then 6305039478318694 # 4503599627370496
  else 8196551321814303 # 4503599627370496.

(** * Facts *)

Unset Implicit Arguments.

(** ** Lists *)

Lemma nth_map_seq (A : Type) (f : nat -> A) (n i : nat) (d : A) :
  (i < n)%nat -> nth i (map f (seq 0 n)) d = f i.
Proof.
  intros Hi.
  rewrite (nth_indep _ d (f 0%nat)) by (rewrite length_map, length_seq; exact Hi).
  rewrite (map_nth f (seq 0 n) 0%nat i), seq_nth by exact Hi.
  reflexivity.
Qed.

(** ** Rolling windows *)

Lemma rolling_length k agg xs : length (rolling k agg xs) = length xs.
Proof. unfold rolling. now rewrite length_map, length_seq. Qed.

Lemma rolling_nth k agg xs i :
  (i < length xs)%nat ->
  nth i (rolling k agg xs) NaN =
  match window k xs i with
  | Some w => match all_fin w with Some qs => Fin (agg qs) | None => NaN end
  | None => NaN
  end.
Proof. intros Hi. unfold rolling. now rewrite nth_map_seq. Qed.

(** While the window is not full the aggregate is missing. *)
Lemma rolling_nan_early k agg xs i :
  (i + 1 < k)%nat -> nth i (rolling k agg xs) NaN = NaN.
Proof.
  intros Hk.
  destruct (Nat.lt_ge_cases i (length xs)) as [Hi|Hi].
  - rewrite rolling_nth by exact Hi. unfold window.
    destruct (Nat.leb_spec k (i + 1)); [lia|reflexivity].
  - apply nth_overflow. now rewrite rolling_length.
Qed.

(** A series shorter than the window has no defined aggregate at all. *)
Lemma rolling_short k agg xs i :
  (length xs < k)%nat -> nth i (rolling k agg xs) NaN = NaN.
Proof.
  intros Hk.
  destruct (Nat.lt_ge_cases i (length xs)) as [Hi|Hi].
  - apply rolling_nan_early. lia.
  - apply nth_overflow. now rewrite rolling_length.
Qed.

(** The aggregate depends on the values alone. *)
Lemma all_fin_map_Fin (w : list Q) : all_fin (map Fin w) = Some w.
Proof. induction w as [|q w IH]; simpl; [reflexivity|now rewrite IH]. Qed.

(** ** The trend loop *)

Lemma at_set_length index idx v col :
  length col = length index -> length (at_set index idx v col) = length index.
Proof.
  intros H. unfold at_set. rewrite length_map, length_combine. lia.
Qed.

Lemma at_set_app pre rest idx v c1 c2 :
  length c1 = length pre ->
  at_set (pre ++ rest) idx v (c1 ++ c2) = at_set pre idx v c1 ++ at_set rest idx v c2.
Proof.
  revert c1. induction pre as [|d pre IH]; intros [|c c1] H; simpl in H; try discriminate.
  - reflexivity.
  - unfold at_set in *. simpl. f_equal. apply IH. lia.
Qed.

(** A label that does not occur leaves the column alone. *)
Lemma at_set_absent index idx v col :
  ~ In idx index -> length col = length index -> at_set index idx v col = col.
Proof.
  revert col. induction index as [|d index IH]; intros [|c col] Hin H;
    simpl in H; try discriminate; [reflexivity|].
  unfold at_set in *. simpl.
  destruct (Z.eqb_spec d idx) as [->|_]; [exfalso; apply Hin; now left|].
  f_equal. apply IH; [|lia]. intros Hi. apply Hin. now right.
Qed.

(** With unique labels the loop writes one cell per pass, left to right:
    after the rows labelled [pre], the untouched part of the column is
    followed by the scan of the remaining averages. *)
Lemma trend_loop_streak suf :
  forall pre ma cnt prev col,
    NoDup (pre ++ suf) ->
    length ma = length suf ->
    length col = length (pre ++ suf) ->
    trend_loop (pre ++ suf) (combine suf ma) cnt prev col =
    firstn (length pre) col ++ streak prev cnt ma.
Proof.
  induction suf as [|d suf IH]; intros pre ma cnt prev col Hnd Hma Hcol.
  - destruct ma; [|discriminate]. simpl.
    rewrite !app_nil_r in *. now rewrite firstn_all2 by lia.
  - destruct ma as [|m ma]; [discriminate|]. simpl in Hma.
    cbn [combine trend_loop streak].
    set (c := next_cnt prev m cnt).
    assert (Hsplit : pre ++ d :: suf = (pre ++ [d]) ++ suf)
      by now rewrite <- app_assoc.
    rewrite Hsplit at 1.
    rewrite IH.
    + rewrite length_app. simpl.
      rewrite <- (firstn_skipn (length pre) col) at 1.
      rewrite length_app in Hcol. simpl in Hcol.
      assert (Hl1 : length (firstn (length pre) col) = length pre)
        by (rewrite length_firstn; lia).
      destruct (skipn (length pre) col) as [|x tl] eqn:Htl.
      { exfalso. apply (f_equal (@length Z)) in Htl.
        rewrite length_skipn in Htl. simpl in Htl. lia. }
      rewrite at_set_app by exact Hl1.
      rewrite at_set_absent; [|now apply NoDup_remove_2 in Hnd; intros Hi; apply Hnd, in_or_app; left|exact Hl1].
      unfold at_set at 1. cbn [combine map fst snd]. rewrite Z.eqb_refl.
      rewrite firstn_app, Hl1.
      replace (length pre + 1 - length pre)%nat with 1%nat by lia.
      rewrite firstn_all2 by lia. cbn [firstn].
      now rewrite <- app_assoc.
    + now rewrite <- Hsplit.
    + lia.
    + rewrite <- Hsplit. apply at_set_length. exact Hcol.
Qed.

Lemma trend_column_streak index ma :
  NoDup index -> length ma = length index ->
  trend_column index ma = streak None 0%Z ma.
Proof.
  intros Hnd Hlen. unfold trend_column.
  apply (trend_loop_streak index [] ma 0%Z None); simpl; auto.
  now rewrite repeat_length.
Qed.

(** The scan, read row by row. *)
Lemma streak_nth_S ma :
  forall prev cnt i,
    (S i < length ma)%nat ->
    nth (S i) (streak prev cnt ma) 0%Z =
    next_cnt (Some (nth i ma NaN)) (nth (S i) ma NaN) (nth i (streak prev cnt ma) 0%Z).
Proof.
  induction ma as [|m ma IH]; intros prev cnt i Hi; simpl in Hi; [lia|].
  destruct i as [|i].
  - destruct ma as [|m' ma]; simpl in Hi; [lia|]. reflexivity.
  - cbn [streak nth]. apply IH. lia.
Qed.

Lemma streak_nth_0 ma cnt : nth 0 (streak None cnt ma) 0%Z = 0%Z.
Proof. destruct ma; reflexivity. Qed.

Lemma next_cnt_bounds prev curr cnt :
  (0 <= cnt)%Z -> (0 <= next_cnt prev curr cnt <= cnt + 1)%Z.
Proof.
  intros H. unfold next_cnt.
  destruct prev as [p|]; [destruct (float_gt curr p)|]; lia.
Qed.


(** ** The annotator, column by column *)

Lemma map_nth_seq (A : Type) (l : list A) (d : A) :
  map (fun i => nth i l d) (seq 0 (length l)) = l.
Proof.
  apply (nth_ext _ _ d d).
  - now rewrite length_map, length_seq.
  - intros i Hi. rewrite length_map, length_seq in Hi. now rewrite nth_map_seq.
Qed.

Lemma trend_loop_length index rows :
  forall cnt prev col,
    length col = length index ->
    length (trend_loop index rows cnt prev col) = length index.
Proof.
  induction rows as [|[idx curr] rows IH]; intros cnt prev col H; simpl.
  - exact H.
  - apply IH. now apply at_set_length.
Qed.

Lemma trend_column_length index ma : length (trend_column index ma) = length index.
Proof. unfold trend_column. apply trend_loop_length. apply repeat_length. Qed.

Lemma process_length df : length (_process_ticker df) = length df.
Proof. unfold _process_ticker. now rewrite length_map, length_seq. Qed.

Lemma process_nth_error df i r :
  nth_error (_process_ticker df) i = Some r ->
  (i < length df)%nat /\
  r = annotate_row (nth i df default_bar)
        (nth i (rolling_mean 50 (map Close df)) NaN)
        (nth i (rolling_mean 150 (map Close df)) NaN)
        (nth i (rolling_mean 200 (map Close df)) NaN)
        (nth i (trend_column (map Date df) (rolling_mean 200 (map Close df))) 0%Z)
        (nth i (rolling_max WK52 (map Close df)) NaN)
        (nth i (rolling_min WK52 (map Close df)) NaN).
Proof.
  intros H.
  assert (Hi : (i < length df)%nat).
  { rewrite <- process_length. apply nth_error_Some. congruence. }
  split; [exact Hi|].
  apply (nth_error_nth _ _ r) in H. rewrite <- H.
  unfold _process_ticker. now rewrite nth_map_seq.
Qed.

Lemma process_nth_error_lt df i :
  (i < length df)%nat -> exists r, nth_error (_process_ticker df) i = Some r.
Proof.
  intros Hi. destruct (nth_error (_process_ticker df) i) as [r|] eqn:E.
  - now exists r.
  - apply nth_error_None in E. rewrite process_length in E. lia.
Qed.

Lemma process_base df : map base (_process_ticker df) = df.
Proof.
  unfold _process_ticker. rewrite map_map. cbn [annotate_row base].
  apply map_nth_seq.
Qed.

Lemma process_col_200MA df :
  map col_200MA (_process_ticker df) = rolling_mean 200 (map Close df).
Proof.
  unfold _process_ticker. rewrite map_map. cbn [annotate_row col_200MA].
  replace (length df) with (length (rolling_mean 200 (map Close df)))
    by (unfold rolling_mean; now rewrite rolling_length, length_map).
  apply map_nth_seq.
Qed.

Lemma process_col_200MA_TREND df :
  map col_200MA_TREND (_process_ticker df) =
  trend_column (map Date df) (rolling_mean 200 (map Close df)).
Proof.
  unfold _process_ticker. rewrite map_map. cbn [annotate_row col_200MA_TREND].
  set (tr := trend_column _ _).
  replace (length df) with (length tr)
    by (unfold tr; now rewrite trend_column_length, length_map).
  apply map_nth_seq.
Qed.

(** For a series with unique dates the trend column is the scan. *)
Lemma process_trend_streak df :
  unique_dates df ->
  map col_200MA_TREND (_process_ticker df) =
  streak None 0%Z (map col_200MA (_process_ticker df)).
Proof.
  intros Hnd. rewrite process_col_200MA_TREND, process_col_200MA.
  apply trend_column_streak; [exact Hnd|].
  unfold rolling_mean. now rewrite rolling_length, !length_map.
Qed.

Lemma next_cnt_NaN prev cnt : next_cnt prev NaN cnt = 0%Z.
Proof. destruct prev as [[|p]|]; reflexivity. Qed.

Lemma streak_nth_NaN ma :
  forall prev cnt i, nth i ma NaN = NaN -> nth i (streak prev cnt ma) 0%Z = 0%Z.
Proof.
  induction ma as [|m ma IH]; intros prev cnt i H.
  - destruct i; reflexivity.
  - destruct i as [|i]; simpl in *.
    + subst m. apply next_cnt_NaN.
    + now apply IH.
Qed.

(** ** The 200-day trend counter *)

(** A run of strictly increasing averages adds one per row. *)
Lemma streak_run ma prev cnt s :
  forall n,
    (s + n < length ma)%nat ->
    (forall j, (s <= j)%nat -> (j < s + n)%nat ->
               float_gt (nth (S j) ma NaN) (nth j ma NaN) = true) ->
    nth (s + n) (streak prev cnt ma) 0%Z =
    (nth s (streak prev cnt ma) 0%Z + Z.of_nat n)%Z.
Proof.
  induction n as [|n IH]; intros Hlen Hrun.
  - rewrite Nat.add_0_r. simpl. lia.
  - replace (s + S n)%nat with (S (s + n)) by lia.
    rewrite streak_nth_S by lia. unfold next_cnt.
    rewrite Hrun by lia. rewrite IH; [lia|lia|].
    intros j H1 H2. apply Hrun; lia.
Qed.

(** C2: for a price series (unique dates) the 200MA_TREND column is a streak
    counter over the 200MA column: 0 on the first row; on every later row
    the previous count plus 1 when the 200-day average is strictly greater
    than on the prior row, 0 otherwise; over a run of [n] consecutive
    strictly increasing averages the count at the end of the run is the count
    at its start plus [n - 1], which is [n - 1] when the run starts afresh. *)
Theorem C2_trend_is_streak_counter (df : list bar) :
  unique_dates df ->
  let ma := map col_200MA (_process_ticker df) in
  let tr := map col_200MA_TREND (_process_ticker df) in
  nth 0 tr 0%Z = 0%Z /\
  (forall i, (S i < length df)%nat ->
     nth (S i) tr 0%Z =
     if float_gt (nth (S i) ma NaN) (nth i ma NaN)
     then (nth i tr 0%Z + 1)%Z else 0%Z) /\
  (forall s n, (1 <= n)%nat -> (s + n <= length df)%nat ->
     (forall j, (s <= j)%nat -> (S j < s + n)%nat ->
                float_gt (nth (S j) ma NaN) (nth j ma NaN) = true) ->
     nth (s + n - 1) tr 0%Z = (nth s tr 0%Z + (Z.of_nat n - 1))%Z /\
     ((s = 0%nat \/ float_gt (nth s ma NaN) (nth (s - 1) ma NaN) = false) ->
      nth (s + n - 1) tr 0%Z = (Z.of_nat n - 1)%Z)).
Proof.
  intros Hnd ma tr.
  assert (Htr : tr = streak None 0%Z ma) by (apply process_trend_streak; exact Hnd).
  assert (Hlen : length ma = length df)
    by (unfold ma; now rewrite length_map, process_length).
  assert (Hstep : forall i, (S i < length df)%nat ->
     nth (S i) tr 0%Z =
     if float_gt (nth (S i) ma NaN) (nth i ma NaN)
     then (nth i tr 0%Z + 1)%Z else 0%Z).
  { intros i Hi. rewrite Htr, streak_nth_S by lia. reflexivity. }
  assert (H0 : nth 0 tr 0%Z = 0%Z) by (rewrite Htr; apply streak_nth_0).
  split; [exact H0|]. split; [exact Hstep|].
  intros s n Hn Hsn Hrun.
  assert (Hend : nth (s + n - 1) tr 0%Z = (nth s tr 0%Z + (Z.of_nat n - 1))%Z).
  { rewrite Htr.
    replace (s + n - 1)%nat with (s + (n - 1))%nat by lia.
    rewrite streak_run; [lia|lia|].
    intros j H1 H2. apply Hrun; lia. }
  split; [exact Hend|].
  intros Hstart. rewrite Hend.
  assert (Hs : nth s tr 0%Z = 0%Z).
  { destruct s as [|s]; [exact H0|].
    destruct Hstart as [Hs|Hs]; [discriminate|].
    rewrite Hstep by lia. simpl in Hs. rewrite Nat.sub_0_r in Hs. now rewrite Hs. }
  lia.
Qed.

(** Every row of the annotated frame, read through [annotate_row]. *)
Lemma process_In df r :
  In r (_process_ticker df) ->
  exists i, nth_error (_process_ticker df) i = Some r.
Proof. apply In_nth_error. Qed.

(** C10: in the annotated frame of a price series (unique dates) the columns
    200MA_TREND, 200MA_TREND_1M, _3M and _6M hold an integer and three
    booleans on every row, never a missing value; on every row whose 200MA is
    undefined, as it is on each of the first 199 rows, 200MA_TREND is 0 and
    the three booleans are false. *)
Theorem C10_trend_columns_always_defined (df : list bar) :
  unique_dates df ->
  forall i r,
    nth_error (_process_ticker df) i = Some r ->
    ((exists z, getitem r "200MA_TREND" = Ok (CInt z)) /\
     (exists b, getitem r "200MA_TREND_1M" = Ok (CBool b)) /\
     (exists b, getitem r "200MA_TREND_3M" = Ok (CBool b)) /\
     (exists b, getitem r "200MA_TREND_6M" = Ok (CBool b))) /\
    (col_200MA r = NaN ->
     col_200MA_TREND r = 0%Z /\
     col_200MA_TREND_1M r = false /\
     col_200MA_TREND_3M r = false /\
     col_200MA_TREND_6M r = false) /\
    ((i < 199)%nat -> col_200MA r = NaN).
Proof.
  intros Hnd i r Hr.
  destruct (process_nth_error _ _ _ Hr) as [Hi ->].
  split; [|split].
  - repeat split; eexists; reflexivity.
  - cbn [annotate_row col_200MA col_200MA_TREND col_200MA_TREND_1M
         col_200MA_TREND_3M col_200MA_TREND_6M].
    intros Hnan.
    rewrite trend_column_streak;
      [|exact Hnd|unfold rolling_mean; now rewrite rolling_length, !length_map].
    rewrite streak_nth_NaN by exact Hnan.
    repeat split.
  - intros H199. cbn [annotate_row col_200MA].
    apply rolling_nan_early. lia.
Qed.

(** ** Series shorter than 200 rows *)

Lemma at_set_zero index idx col :
  Forall (fun z => z = 0%Z) col -> Forall (fun z => z = 0%Z) (at_set index idx 0%Z col).
Proof.
  intros H. unfold at_set. apply Forall_forall. intros z Hz.
  apply in_map_iff in Hz as ([d c] & Hz & Hin). simpl in Hz.
  destruct (d =? idx)%Z; [congruence|].
  subst z. apply in_combine_r in Hin.
  now apply (proj1 (Forall_forall _ _) H).
Qed.

(** While every average is missing the loop only ever writes 0. *)
Lemma trend_loop_all_NaN index rows :
  forall cnt prev col,
    Forall (fun row : Z * float => snd row = NaN) rows ->
    Forall (fun z => z = 0%Z) col ->
    Forall (fun z => z = 0%Z) (trend_loop index rows cnt prev col).
Proof.
  induction rows as [|[idx curr] rows IH]; intros cnt prev col Hrows Hcol; simpl.
  - exact Hcol.
  - inversion Hrows as [|? ? Hc Hrest]; subst. simpl in Hc. subst curr.
    apply IH; [exact Hrest|].
    rewrite next_cnt_NaN. now apply at_set_zero.
Qed.

Lemma rolling_short_all k agg xs :
  (length xs < k)%nat -> Forall (fun x => x = NaN) (rolling k agg xs).
Proof.
  intros Hk. apply Forall_forall. intros x Hx.
  destruct (In_nth _ _ NaN Hx) as (i & _ & <-).
  now apply rolling_short.
Qed.

Lemma trend_column_short index xs :
  (length xs < 200)%nat ->
  Forall (fun z => z = 0%Z) (trend_column index (rolling_mean 200 xs)).
Proof.
  intros Hk. unfold trend_column. apply trend_loop_all_NaN.
  - apply Forall_forall. intros [d x] Hin. simpl.
    apply in_combine_r in Hin.
    now apply (proj1 (Forall_forall _ _) (rolling_short_all 200 mean xs Hk)).
  - apply Forall_forall. intros z Hz. now apply repeat_spec in Hz.
Qed.

Lemma nth_all_zero (l : list Z) i :
  Forall (fun z => z = 0%Z) l -> nth i l 0%Z = 0%Z.
Proof.
  intros H. destruct (Nat.lt_ge_cases i (length l)) as [Hi|Hi].
  - apply (proj1 (Forall_forall _ _) H). now apply nth_In.
  - now apply nth_overflow.
Qed.

(** On a series shorter than 200 rows (unique dates or not) every row has
    a missing 200MA and a zero trend count. *)
Lemma process_short df i r :
  (length df < 200)%nat ->
  nth_error (_process_ticker df) i = Some r ->
  col_200MA r = NaN /\ col_200MA_TREND r = 0%Z /\ col_200MA_TREND_1M r = false.
Proof.
  intros Hlen Hr.
  destruct (process_nth_error _ _ _ Hr) as [Hi ->].
  cbn [annotate_row col_200MA col_200MA_TREND col_200MA_TREND_1M].
  assert (Hz : nth i (trend_column (map Date df) (rolling_mean 200 (map Close df))) 0%Z = 0%Z).
  { apply nth_all_zero, trend_column_short. now rewrite length_map. }
  rewrite Hz. repeat split.
  apply rolling_short. now rewrite length_map.
Qed.

(** ** The evaluator *)

Lemma iloc_last_app (df : list arow) r : iloc_last (df ++ [r]) = Ok r.
Proof. unfold iloc_last. now rewrite rev_app_distr. Qed.

Lemma iloc_last_inv (df : list arow) r :
  iloc_last df = Ok r -> exists pre, df = pre ++ [r].
Proof.
  unfold iloc_last. intros H.
  destruct (rev df) as [|x l] eqn:E; [discriminate|].
  inversion H; subst x. exists (rev l).
  rewrite <- (rev_involutive df), E. reflexivity.
Qed.

Lemma iloc_last_nonempty (df : list arow) :
  df <> [] -> exists r, iloc_last df = Ok r.
Proof.
  intros H. destruct (exists_last H) as (pre & r & ->).
  exists r. apply iloc_last_app.
Qed.

Lemma iloc_last_nth_error (df : list arow) r :
  iloc_last df = Ok r -> nth_error df (length df - 1) = Some r.
Proof.
  intros H. destruct (iloc_last_inv _ _ H) as [pre ->].
  rewrite length_app. simpl.
  replace (length pre + 1 - 1)%nat with (length pre) by lia.
  rewrite nth_error_app2 by lia. now rewrite Nat.sub_diag.
Qed.

(** The loop returns false at the first named value that equals [False] and
    true when there is none. *)
Lemma check_conditions_spec df r conditions :
  iloc_last df = Ok r ->
  (forall c, In c conditions -> exists v, getitem r c = Ok v) ->
  check_conditions df conditions = Ok (forallb (passes_cell r) conditions).
Proof.
  intros Hr. induction conditions as [|c conditions IH]; intros Hcols.
  - reflexivity.
  - cbn [check_conditions forallb]. rewrite Hr.
    destruct (Hcols c (or_introl eq_refl)) as [v Hv].
    unfold passes_cell at 1. rewrite Hv.
    destruct (cell_eq_False v); simpl.
    + reflexivity.
    + apply IH. intros c' Hc'. apply Hcols. now right.
Qed.

(** The six default conditions name boolean columns of every row. *)
Lemma default_conditions_boolean r c :
  In c default_conditions -> exists b, getitem r c = Ok (CBool b).
Proof.
  intros H. simpl in H.
  repeat (destruct H as [<-|H]; [eexists; reflexivity|]).
  contradiction.
Qed.

(** C1 (as amended): for an annotated frame with a final row and condition
    columns whose values in that row are booleans, which holds for the six
    default conditions on every row, [check_conditions] returns true exactly
    when every named value is true and false exactly when some named value
    is false. *)
Theorem C1_evaluator_on_boolean_columns (df : list arow) (conditions : list string) (r : arow) :
  iloc_last df = Ok r ->
  (forall c, In c conditions -> exists b, getitem r c = Ok (CBool b)) ->
  (check_conditions df conditions = Ok true <-> all_true r conditions) /\
  (check_conditions df conditions = Ok false <->
   exists c, In c conditions /\ getitem r c = Ok (CBool false)) /\
  (forall c, In c default_conditions -> exists b, getitem r c = Ok (CBool b)).
Proof.
  intros Hr Hbool.
  assert (Hspec : check_conditions df conditions = Ok (forallb (passes_cell r) conditions)).
  { apply check_conditions_spec; [exact Hr|].
    intros c Hc. destruct (Hbool c Hc) as [b Hb]. now exists (CBool b). }
  assert (Hall : forallb (passes_cell r) conditions = true <-> all_true r conditions).
  { rewrite forallb_forall. unfold all_true, passes_cell.
    split; intros H c Hc; specialize (H c Hc);
      destruct (Hbool c Hc) as [b Hb]; rewrite Hb in *; destruct b; simpl in *;
        congruence. }
  rewrite Hspec. split; [|split].
  - rewrite <- Hall. split; [now inversion 1|now intros ->].
  - split.
    + intros H. inversion H as [Hf].
      destruct (forallb (passes_cell r) conditions) eqn:E; [discriminate|].
      clear Hspec Hall H Hf.
      induction conditions as [|c cs IH]; [discriminate|].
      simpl in E. apply andb_false_iff in E as [E|E].
      * exists c. split; [now left|].
        unfold passes_cell in E.
        destruct (Hbool c (or_introl eq_refl)) as [b Hb]. rewrite Hb in *.
        destruct b; [discriminate|reflexivity].
      * destruct IH as (c' & Hc' & Hv); [|exact E|].
        { intros c' Hc'. apply Hbool. now right. }
        exists c'. split; [now right|exact Hv].
    + intros (c & Hc & Hv). f_equal.
      destruct (forallb (passes_cell r) conditions) eqn:E; [|reflexivity].
      rewrite forallb_forall in E. specialize (E c Hc).
      unfold passes_cell in E. rewrite Hv in E. discriminate.
  - intros c Hc. now apply default_conditions_boolean.
Qed.

(** ** The driver *)

Section DriverFacts.

Variable World : Type.
Variable download : string -> World -> (list bar + string) * World.

Local Abbreviation load := (load_ticker_data download).
Local Abbreviation step := (run_step download).
Local Abbreviation loop := (run_loop download).

Lemma load_empty_symbol st : load "" st = (Err NoTickerDefined, st).
Proof. reflexivity. Qed.

(** For a symbol that is not empty the provider is called once, and the
    outcome of the call is the outcome of the load. *)
Lemma load_symbol ticker st :
  ticker <> "" ->
  load ticker st =
  (match fst (download ticker (world st)) with
   | inl df => Ok (_process_ticker df)
   | inr msg => Err (DownloadError msg)
   end,
   {| world := snd (download ticker (world st));
      downloads := downloads st ++ [ticker] |}).
Proof.
  intros Hne. unfold load_ticker_data.
  destruct (String.eqb_spec ticker "") as [->|_]; [congruence|].
  unfold bind, yf_download, ret.
  destruct (download ticker (world st)) as [[df|msg] w]; reflexivity.
Qed.

Lemma load_downloads ticker st :
  downloads (snd (load ticker st)) =
  downloads st ++ (if String.eqb ticker "" then [] else [ticker]).
Proof.
  destruct (String.eqb_spec ticker "") as [->|Hne].
  - simpl. now rewrite app_nil_r.
  - rewrite load_symbol by exact Hne. reflexivity.
Qed.

(** One pass of the loop, case by case. *)
Lemma step_unfold stock df_export st :
  step stock df_export st =
  match load stock st with
  | (Err e, st1) => (Err e, st1)
  | (Ok tmp_df, st1) =>
      if empty tmp_df then (Ok df_export, st1)
      else match check_conditions tmp_df default_conditions with
           | Err e => (Err e, st1)
           | Ok false => (Ok df_export, st1)
           | Ok true =>
               match iloc_last tmp_df with
               | Ok r => (Ok (df_export ++ [tag stock r]), st1)
               | Err e => (Err e, st1)
               end
           end
  end.
Proof.
  unfold run_step, bind.
  destruct (load stock st) as [[tmp|e] st1]; [|reflexivity].
  destruct tmp as [|x tmp]; [reflexivity|].
  cbn [empty negb]. unfold lift, ret.
  destruct (check_conditions (x :: tmp) default_conditions) as [[|]|e]; reflexivity.
Qed.

Lemma loop_cons stock rest df_export st :
  loop (stock :: rest) df_export st =
  match step stock df_export st with
  | (Ok df_export', st1) => loop rest df_export' st1
  | (Err e, st1) => (Err e, st1)
  end.
Proof. reflexivity. Qed.

Lemma loop_app pre post df_export st :
  loop (pre ++ post) df_export st =
  match loop pre df_export st with
  | (Ok df_export', st1) => loop post df_export' st1
  | (Err e, st1) => (Err e, st1)
  end.
Proof.
  revert df_export st. induction pre as [|s pre IH]; intros df_export st.
  - reflexivity.
  - rewrite <- app_comm_cons, !loop_cons.
    destruct (step s df_export st) as [[e1|e] st1]; [apply IH|reflexivity].
Qed.

(** On a frame with rows the default conditions never raise. *)
Lemma check_default_total (tmp : list arow) :
  tmp <> [] -> exists b, check_conditions tmp default_conditions = Ok b.
Proof.
  intros Hne. destruct (iloc_last_nonempty _ Hne) as [r Hr].
  eexists. apply check_conditions_spec with (r := r); [exact Hr|].
  intros c Hc. destruct (default_conditions_boolean r c Hc) as [b Hb].
  now exists (CBool b).
Qed.

(** A ticker whose frame is empty or fails the conditions leaves the table
    as it is. *)
Lemma step_rejected stock df_export st tmp st1 :
  load stock st = (Ok tmp, st1) ->
  tmp = [] \/ check_conditions tmp default_conditions = Ok false ->
  step stock df_export st = (Ok df_export, st1).
Proof.
  intros Hload Hrej. rewrite step_unfold, Hload.
  destruct tmp as [|x tmp]; [reflexivity|]. cbn [empty].
  destruct Hrej as [Hnil|Hc]; [discriminate|]. now rewrite Hc.
Qed.

Lemma step_failed stock df_export st e st1 :
  load stock st = (Err e, st1) ->
  step stock df_export st = (Err e, st1).
Proof. intros Hload. now rewrite step_unfold, Hload. Qed.

(** The loop refines [picked], whatever table it starts from. *)
Lemma loop_picked stock_list :
  forall df_export st table st',
    loop stock_list df_export st = (Ok table, st') ->
    exists rows, table = df_export ++ rows /\ picked download st stock_list rows st'.
Proof.
  induction stock_list as [|stock rest IH]; intros df_export st table st' H.
  - inversion H; subst. exists []. split; [now rewrite app_nil_r|constructor].
  - rewrite loop_cons, step_unfold in H.
    destruct (load stock st) as [[tmp|e] st1] eqn:Hload; [|discriminate].
    destruct tmp as [|x tmp]; cbn [empty] in H.
    + destruct (IH _ _ _ _ H) as (rows & -> & Hp).
      exists rows. split; [reflexivity|].
      eapply picked_skip; eauto.
    + destruct (check_conditions (x :: tmp) default_conditions) as [[|]|e] eqn:Hc;
        [| |discriminate].
      * destruct (iloc_last (x :: tmp)) as [r|e] eqn:Hr; [|discriminate].
        destruct (IH _ _ _ _ H) as (rows & -> & Hp).
        exists (tag stock r :: rows). split; [now rewrite <- app_assoc|].
        eapply picked_take; eauto.
      * destruct (IH _ _ _ _ H) as (rows & -> & Hp).
        exists rows. split; [reflexivity|].
        eapply picked_skip; eauto.
Qed.

Lemma picked_length st stock_list rows st' :
  picked download st stock_list rows st' -> (length rows <= length stock_list)%nat.
Proof. induction 1; simpl; lia. Qed.



(** C6: the empty ticker symbol makes [load_ticker_data] raise its "No
    ticker defined." exception with the state untouched, so before any call
    of the provider; for a symbol that is not empty the provider is called
    and that exception is not raised. *)
Theorem C6_empty_ticker_rejected_before_fetch (st : state World) :
  load "" st = (Err NoTickerDefined, st) /\
  forall ticker,
    ticker <> "" ->
    fst (load ticker st) <> Err NoTickerDefined /\
    downloads (snd (load ticker st)) = downloads st ++ [ticker].
Proof.
  split; [reflexivity|].
  intros ticker Hne. rewrite load_symbol by exact Hne. simpl.
  split; [|reflexivity].
  destruct (fst (download ticker (world st))); discriminate.
Qed.

(** C3 (as amended): once the tickers before [stock] went through, a
    [stock] whose frame is empty or fails the conditions adds nothing and
    the loop goes on with the tickers after it; an exception raised while
    loading [stock] ends the whole run with that exception, and the provider
    is called for no later ticker. *)
Theorem C3_exception_aborts_batch
        (pre : list string) (stock : string) (post : list string)
        (df_export : export_table) (st : state World)
        (table1 : export_table) (st1 : state World) :
  loop pre df_export st = (Ok table1, st1) ->
  (forall tmp st2,
      load stock st1 = (Ok tmp, st2) ->
      tmp = [] \/ check_conditions tmp default_conditions = Ok false ->
      loop (pre ++ stock :: post) df_export st = loop post table1 st2) /\
  (forall e st2,
      load stock st1 = (Err e, st2) ->
      loop (pre ++ stock :: post) df_export st = (Err e, st2) /\
      downloads st2 = downloads st1 ++ (if String.eqb stock "" then [] else [stock])).
Proof.
  intros Hpre. split.
  - intros tmp st2 Hload Hrej.
    rewrite loop_app, Hpre, loop_cons.
    now rewrite (step_rejected stock table1 st1 tmp st2 Hload Hrej).
  - intros e st2 Hload. split.
    + rewrite loop_app, Hpre, loop_cons.
      now rewrite (step_failed stock table1 st1 e st2 Hload).
    + rewrite <- load_downloads. now rewrite Hload.
Qed.


End DriverFacts.

(** ** Rejection of short series *)

(** C4: a price series with at least one and fewer than 200 rows has a
    missing 200MA on every annotated row; the evaluator answers false on it,
    and the driver's pass for a ticker with such a series leaves the result
    table as it is. *)
Theorem C4_short_series_rejected (df : list bar) :
  (0 < length df < 200)%nat ->
  (forall r, In r (_process_ticker df) -> col_200MA r = NaN) /\
  check_conditions (_process_ticker df) default_conditions = Ok false /\
  (forall (World : Type) (download : string -> World -> (list bar + string) * World)
          (stock : string) (rest : list string)
          (df_export : export_table) (st : state World),
      stock <> "" ->
      fst (download stock (world st)) = inl df ->
      run_loop download (stock :: rest) df_export st =
      run_loop download rest df_export
               {| world := snd (download stock (world st));
                  downloads := downloads st ++ [stock] |}).
Proof.
  intros [Hpos Hlt].
  assert (Hcheck : check_conditions (_process_ticker df) default_conditions = Ok false).
  { assert (Hne : _process_ticker df <> []).
    { intros E. apply (f_equal (@length arow)) in E.
      rewrite process_length in E. simpl in E. lia. }
    destruct (iloc_last_nonempty _ Hne) as [r Hr].
    destruct (process_short df _ r Hlt (iloc_last_nth_error _ _ Hr)) as (_ & _ & H1M).
    unfold default_conditions. cbn [check_conditions]. rewrite Hr.
    change (getitem r "200MA_TREND_1M") with (Ok (CBool (col_200MA_TREND_1M r))).
    now rewrite H1M. }
  split; [|split].
  - intros r Hin. destruct (process_In _ _ Hin) as [i Hi].
    now destruct (process_short df i r Hlt Hi).
  - exact Hcheck.
  - intros World download stock rest df_export st Hne Hdl.
    rewrite loop_cons.
    rewrite (step_rejected World download stock df_export st (_process_ticker df)
               {| world := snd (download stock (world st));
                  downloads := downloads st ++ [stock] |}).
    + reflexivity.
    + rewrite load_symbol by exact Hne. now rewrite Hdl.
    + now right.
Qed.

(** ** Comparisons of the moving averages *)

Lemma Qlt_bool_iff (x y : Q) : Qlt_bool x y = true <-> (x < y)%Q.
Proof. unfold Qlt_bool, Qlt. apply Z.ltb_lt. Qed.


(** C9: on every annotated row the column 50MA>> is the comparison
    [50MA > 150MA] (made twice), a function of these two columns alone; where
    both averages are defined it is true exactly when the 50-day average is
    greater than the 150-day average. *)
Theorem C9_ma50_above_compares_ma150 (df : list bar) (r : arow) :
  In r (_process_ticker df) ->
  col_50MA_above r = float_gt (col_50MA r) (col_150MA r) /\
  forall a b,
    col_50MA r = Fin a -> col_150MA r = Fin b ->
    (col_50MA_above r = true <-> (b < a)%Q).
Proof.
  intros Hin. destruct (process_In _ _ Hin) as [i Hi].
  destruct (process_nth_error _ _ _ Hi) as [_ ->].
  cbn [annotate_row col_50MA_above col_50MA col_150MA].
  split.
  - now destruct (float_gt _ _).
  - intros a b -> ->. unfold float_gt. rewrite andb_diag. apply Qlt_bool_iff.
Qed.

(** ** Determinism *)

Lemma Close_nth (df : list bar) i :
  Close (nth i df default_bar) = nth i (map Close df) NaN.
Proof. symmetry. exact (map_nth Close df default_bar i). Qed.

(** C8: the derived columns are a function of the close column: two price
    series (unique dates) with equal close columns get equal derived
    columns; and annotating the base columns of an annotated frame again
    gives the same derived columns. *)
Theorem C8_annotator_deterministic (df1 df2 : list bar) :
  unique_dates df1 -> unique_dates df2 ->
  map Close df1 = map Close df2 ->
  map derived (_process_ticker df1) = map derived (_process_ticker df2) /\
  map derived (_process_ticker (map base (_process_ticker df1))) =
  map derived (_process_ticker df1).
Proof.
  intros Hnd1 Hnd2 Hclose. split; [|now rewrite process_base].
  assert (Hlen : length df1 = length df2).
  { apply (f_equal (@length float)) in Hclose. now rewrite !length_map in Hclose. }
  unfold _process_ticker. rewrite !map_map, Hlen.
  apply map_ext_in. intros i _.
  unfold derived, annotate_row; cbn -[rolling_mean rolling_max rolling_min trend_column WK52].
  rewrite !Close_nth, Hclose.
  rewrite (trend_column_streak (map Date df1)), (trend_column_streak (map Date df2));
    try assumption;
    try (unfold rolling_mean; rewrite rolling_length, !length_map; lia).
  reflexivity.
Qed.

(** ** The 52-week window *)





(** Where the window of [k] rows ending at row [i] holds the finite values
    [w], the rolling aggregate at [i] is the aggregate of [w]. *)
Lemma rolling_full k agg (df : list bar) i (w : list Q) :
  (1 <= k)%nat -> (k <= i + 1)%nat -> (i < length df)%nat ->
  map Close (firstn k (skipn (i + 1 - k) df)) = map Fin w ->
  nth i (rolling k agg (map Close df)) NaN = Fin (agg w).
Proof.
  intros Hk Hki Hi Hw.
  rewrite rolling_nth by (now rewrite length_map).
  unfold window. destruct (Nat.leb_spec k (i + 1)); [|lia].
  now rewrite skipn_map, firstn_map, Hw, all_fin_map_Fin.
Qed.



(** * Examples *)

Lemma linear_unique n : unique_dates (linear_series n).
Proof.
  unfold unique_dates, linear_series, series. rewrite map_map. cbn [Date].
  apply Injective_map_NoDup; [|apply seq_NoDup].
  intros x y H. lia.
Qed.

Lemma linear_400_iloc_last :
  iloc_last (_process_ticker (linear_series 400)) = Ok linear_400_last.
Proof. vm_compute. reflexivity. Qed.

(** The evaluator on a named numeric column: the 200MA of a one-day series
    is missing, and [check_conditions] answers true. *)
Lemma C1_counterexample_undefined_value_passes :
  check_conditions (_process_ticker (linear_series 1)) ["200MA"] = Ok true /\
  (exists r, iloc_last (_process_ticker (linear_series 1)) = Ok r /\
             getitem r "200MA" = Ok (CFloat NaN)) /\
  ~ evaluator_claim (_process_ticker (linear_series 1)) ["200MA"].
Proof.
  assert (Hc : check_conditions (_process_ticker (linear_series 1)) ["200MA"] = Ok true)
    by (vm_compute; reflexivity).
  assert (Hlast : exists r, iloc_last (_process_ticker (linear_series 1)) = Ok r /\
                            getitem r "200MA" = Ok (CFloat NaN))
    by (eexists; split; vm_compute; reflexivity).
  split; [exact Hc|]. split; [exact Hlast|].
  intros H. destruct Hlast as (r & Hr & Hnan).
  destruct (H r Hr) as [Hall _].
  specialize (Hall Hc "200MA" (or_introl eq_refl)).
  rewrite Hnan in Hall. discriminate.
Qed.

Lemma C1_witness :
  iloc_last (_process_ticker (linear_series 400)) = Ok linear_400_last /\
  (check_conditions (_process_ticker (linear_series 400)) default_conditions = Ok true <->
   all_true linear_400_last default_conditions).
Proof.
  split; [exact linear_400_iloc_last|].
  apply (C1_evaluator_on_boolean_columns
           (_process_ticker (linear_series 400)) default_conditions linear_400_last).
  - exact linear_400_iloc_last.
  - intros c Hc. now apply default_conditions_boolean.
Defined.

Lemma C2_witness :
  unique_dates (linear_series 203) /\
  nth 202 (map col_200MA_TREND (_process_ticker (linear_series 203))) 0%Z = 3%Z.
Proof.
  split; [apply linear_unique|].
  destruct (C2_trend_is_streak_counter (linear_series 203) (linear_unique 203))
    as (_ & _ & Hrun).
  destruct (Hrun 199%nat 4%nat) as [_ Hfresh].
  - lia.
  - vm_compute. lia.
  - intros j H1 H2.
    assert (Hj : j = 199%nat \/ j = 200%nat \/ j = 201%nat) by lia.
    destruct Hj as [->|[->| ->]]; vm_compute; reflexivity.
  - apply Hfresh. right. vm_compute. reflexivity.
Defined.

(** Without unique dates the write by label reaches every row of that date:
    the two last rows of [twice_dated] both end with the last count. *)
Example trend_duplicate_dates :
  skipn 199 (map col_200MA_TREND (_process_ticker twice_dated)) = [0; 2; 2]%Z.
Proof. vm_compute. reflexivity. Qed.

(** A ticker that raises ends the run: "AAA" is never passed to the
    provider, and there is no table. *)
Lemma C3_counterexample_failure_aborts_batch :
  run_loop demo_download [""; "AAA"] [] demo_start = (Err NoTickerDefined, demo_start) /\
  run_loop demo_download ["ERR"; "AAA"] [] demo_start =
  (Err (DownloadError "provider unreachable"), {| world := tt; downloads := ["ERR"] |}) /\
  ~ batch_survives demo_download [""; "AAA"] demo_start /\
  ~ batch_survives demo_download ["ERR"; "AAA"] demo_start.
Proof.
  assert (H1 : run_loop demo_download [""; "AAA"] [] demo_start =
               (Err NoTickerDefined, demo_start)) by reflexivity.
  assert (H2 : run_loop demo_download ["ERR"; "AAA"] [] demo_start =
               (Err (DownloadError "provider unreachable"),
                {| world := tt; downloads := ["ERR"] |})) by reflexivity.
  repeat split; try assumption.
  - intros (table & st' & Hrun & _). rewrite H1 in Hrun. discriminate.
  - intros (table & st' & Hrun & _). rewrite H2 in Hrun. discriminate.
Qed.

Lemma C3_witness :
  run_loop demo_download ["BBB"] [] demo_start =
  (Ok [], {| world := tt; downloads := ["BBB"] |}) /\
  run_loop demo_download (["BBB"] ++ "ERR" :: ["AAA"]) [] demo_start =
  (Err (DownloadError "provider unreachable"),
   {| world := tt; downloads := ["BBB"; "ERR"] |}) /\
  run_loop demo_download (["BBB"] ++ "CCC" :: ["ERR"]) [] demo_start =
  run_loop demo_download ["ERR"] [] {| world := tt; downloads := ["BBB"; "CCC"] |}.
Proof.
  assert (Hpre : run_loop demo_download ["BBB"] [] demo_start =
                 (Ok [], {| world := tt; downloads := ["BBB"] |})) by reflexivity.
  split; [exact Hpre|]. split.
  - apply (C3_exception_aborts_batch unit demo_download ["BBB"] "ERR" ["AAA"]
             [] demo_start [] {| world := tt; downloads := ["BBB"] |} Hpre).
    reflexivity.
  - apply (proj1 (C3_exception_aborts_batch unit demo_download ["BBB"] "CCC" ["ERR"]
             [] demo_start [] {| world := tt; downloads := ["BBB"] |} Hpre) []).
    + reflexivity.
    + now left.
Defined.

Lemma C4_witness :
  (0 < length (linear_series 150) < 200)%nat /\
  check_conditions (_process_ticker (linear_series 150)) default_conditions = Ok false.
Proof.
  assert (Hlen : (0 < length (linear_series 150) < 200)%nat).
  { unfold linear_series, series. rewrite length_map, length_seq. lia. }
  split; [exact Hlen|].
  exact (proj1 (proj2 (C4_short_series_rejected (linear_series 150) Hlen))).
Defined.


(** The products round as float64 products do.  Over 363 closes of 1.0
    followed by the float64 1.3, the product [1.0 * 1.3] is that same
    float64 and the flag is false, although the close is above 13/10; over
    closes of 1.4 followed by 1.82 (the float64 numbers of these literals) the
    product rounds below 1.82 and the flag is true. *)
Example wk52_rounds_as_float64 :
  option_map col_52WK_TREND (nth_error (_process_ticker (series low_then_1_3 364)) 363)
  = Some false /\
  (1 * (13 # 10) < low_then_1_3 363)%Q /\
  option_map col_52WK_TREND (nth_error (_process_ticker (series low_then_1_82 364)) 363)
  = Some true /\
  Q2SF (13 # 10) = d1_3.
Proof. repeat split; vm_compute; reflexivity. Qed.

Lemma C6_witness :
  load_ticker_data demo_download "" demo_start = (Err NoTickerDefined, demo_start) /\
  fst (load_ticker_data demo_download "ERR" demo_start) <> Err NoTickerDefined /\
  downloads (snd (load_ticker_data demo_download "ERR" demo_start)) = ["ERR"].
Proof.
  destruct (C6_empty_ticker_rejected_before_fetch unit demo_download demo_start)
    as [Hempty Hother].
  split; [exact Hempty|].
  apply (Hother "ERR"). discriminate.
Defined.


Lemma redated_unique n : unique_dates (redated (linear_series n)).
Proof.
  unfold unique_dates, redated, linear_series, series. rewrite !map_map. cbn [Date].
  apply Injective_map_NoDup; [|apply seq_NoDup].
  intros x y H. lia.
Qed.

Lemma C8_witness :
  map Close (linear_series 203) = map Close (redated (linear_series 203)) /\
  map derived (_process_ticker (linear_series 203)) =
  map derived (_process_ticker (redated (linear_series 203))).
Proof.
  assert (Hclose : map Close (linear_series 203) = map Close (redated (linear_series 203))).
  { unfold redated. rewrite map_map. reflexivity. }
  split; [exact Hclose|].
  exact (proj1 (C8_annotator_deterministic (linear_series 203) (redated (linear_series 203))
                  (linear_unique 203) (redated_unique 203) Hclose)).
Defined.

(** The 50-day average of [vee] is above the 150-day average and below the
    200-day average on the last row: 50MA>> is true there. *)
Lemma C9_witness :
  In vee_200_last (_process_ticker (series vee 200)) /\
  float_gt (col_50MA vee_200_last) (col_200MA vee_200_last) = false /\
  (col_50MA_above vee_200_last = true <-> (5100 # 150 < 5000 # 50)%Q).
Proof.
  assert (Hin : In vee_200_last (_process_ticker (series vee 200))).
  { apply (nth_error_In _ 199). vm_compute. reflexivity. }
  split; [exact Hin|]. split; [reflexivity|].
  apply (proj2 (C9_ma50_above_compares_ma150 (series vee 200) vee_200_last Hin));
    reflexivity.
Defined.

Lemma C10_witness :
  unique_dates (linear_series 203) /\
  exists r,
    nth_error (_process_ticker (linear_series 203)) 10 = Some r /\
    (exists z, getitem r "200MA_TREND" = Ok (CInt z)) /\
    col_200MA r = NaN /\
    col_200MA_TREND r = 0%Z /\
    col_200MA_TREND_1M r = false /\
    col_200MA_TREND_3M r = false /\
    col_200MA_TREND_6M r = false.
Proof.
  split; [apply linear_unique|].
  destruct (process_nth_error_lt (linear_series 203) 10) as [r Hr].
  { unfold linear_series, series. rewrite length_map, length_seq. lia. }
  exists r. split; [exact Hr|].
  destruct (C10_trend_columns_always_defined (linear_series 203) (linear_unique 203) 10 r Hr)
    as ((Hint & _) & Hnan & Hearly).
  split; [exact Hint|].
  assert (H200 : col_200MA r = NaN) by (apply Hearly; lia).
  split; [exact H200|]. now apply Hnan.
Defined.

(** ** The page [run] renders *)

(** The list the driver iterates can hold the empty symbol: it is what
    [split(", ")] leaves before a leading separator. *)
Example empty_symbol_from_input :
  split_comma_space ", AAA" "" = [""; "AAA"] /\
  run demo_download ", AAA" true demo_start = (Err NoTickerDefined, demo_start).
Proof. split; reflexivity. Qed.

(** Two tickers, one with 400 rising days and one without rows: the page
    shows a table of one row, tagged with the first. *)
Example batch_scenario :
  run demo_download "AAA, BBB" true demo_start =
  (Ok (Dataframe [tag "AAA" linear_400_last]),
   {| world := tt; downloads := ["AAA"; "BBB"] |}).
Proof. vm_compute. reflexivity. Qed.

(** Nothing is loaded before the button is pressed. *)
Example button_not_pressed :
  run demo_download "AAA, BBB" false demo_start = (Ok Nothing, demo_start).
Proof. reflexivity. Qed.

(** 400 days at a constant price: the trend count is 0 on every row and the
    ticker is rejected. *)
Example flat_series_rejected :
  map col_200MA_TREND (_process_ticker (flat_series 400)) = repeat 0%Z 400 /\
  check_conditions (_process_ticker (flat_series 400)) default_conditions = Ok false.
Proof. split; vm_compute; reflexivity. Qed.

(** * Further properties *)

(** ** The evaluator: first failing name *)

Lemma check_conditions_app df r pre rest :
  iloc_last df = Ok r ->
  forallb (passes_cell r) pre = true ->
  check_conditions df (pre ++ rest) = check_conditions df rest.
Proof.
  intros Hr. induction pre as [|c pre IH]; intros Hpre; [reflexivity|].
  cbn [forallb] in Hpre. apply andb_true_iff in Hpre as [Hc Hpre].
  rewrite <- app_comm_cons. cbn [check_conditions]. rewrite Hr.
  unfold passes_cell in Hc.
  destruct (getitem r c) as [v|e]; [|discriminate].
  destruct (cell_eq_False v); [discriminate|]. now apply IH.
Qed.

(** X1: [check_conditions] is decided by the first named column that is
    absent or equal to False, the names before it being present and not
    equal to False: an absent name raises KeyError with that name, a value
    equal to False (the boolean, or a numeric zero) returns false, and in both
    cases the names after it are not looked at. *)
Theorem X1_check_conditions_first_failure
        (df : list arow) (r : arow) (pre : list string) (c : string) (post : list string) :
  iloc_last df = Ok r ->
  forallb (passes_cell r) pre = true ->
  (lookup c (columns r) = None ->
   check_conditions df (pre ++ c :: post) = Err (KeyError c)) /\
  (forall v, getitem r c = Ok v -> cell_eq_False v = true ->
             check_conditions df (pre ++ c :: post) = Ok false).
Proof.
  intros Hr Hpre. rewrite (check_conditions_app df r pre (c :: post) Hr Hpre).
  cbn [check_conditions]. rewrite Hr. split.
  - intros Hnone. unfold getitem. now rewrite Hnone.
  - intros v Hv Hf. now rewrite Hv, Hf.
Qed.

Lemma X1_witness :
  check_conditions (_process_ticker (linear_series 400))
                   (["52WK_TREND"; "Close"] ++ "Adj Close" :: ["200MA"]) =
  Err (KeyError "Adj Close") /\
  check_conditions (_process_ticker (linear_series 400))
                   (["52WK_TREND"; "Close"] ++ "Volume" :: ["Adj Close"]) =
  Ok false.
Proof.
  split.
  - apply (X1_check_conditions_first_failure
             (_process_ticker (linear_series 400)) linear_400_last
             ["52WK_TREND"; "Close"] "Adj Close" ["200MA"]
             linear_400_iloc_last); reflexivity.
  - apply (proj2 (X1_check_conditions_first_failure
             (_process_ticker (linear_series 400)) linear_400_last
             ["52WK_TREND"; "Close"] "Volume" ["Adj Close"]
             linear_400_iloc_last eq_refl) (CInt 0)); reflexivity.
Defined.

(** ** The driver: exceptions and the download trace *)

Section DriverMore.

Variable World : Type.
Variable download : string -> World -> (list bar + string) * World.

Local Abbreviation load := (load_ticker_data download).
Local Abbreviation step := (run_step download).
Local Abbreviation loop := (run_loop download).

(** What loading can raise. *)
Lemma load_raises ticker st e st' :
  load ticker st = (Err e, st') ->
  (e = NoTickerDefined /\ ticker = "") \/ (exists msg, e = DownloadError msg).
Proof.
  destruct (String.eqb_spec ticker "") as [->|Hne]; intros H.
  - rewrite load_empty_symbol in H. inversion H. now left.
  - rewrite load_symbol in H by exact Hne. right.
    destruct (fst (download ticker (world st))) as [df|msg]; inversion H.
    now exists msg.
Qed.

Lemma step_raises stock df_export st e st' :
  step stock df_export st = (Err e, st') ->
  (e = NoTickerDefined /\ stock = "") \/ (exists msg, e = DownloadError msg).
Proof.
  rewrite step_unfold.
  destruct (load stock st) as [[tmp|e0] st1] eqn:Hload.
  - destruct tmp as [|x tmp]; cbn [empty]; [discriminate|].
    destruct (check_default_total (x :: tmp)) as [b Hb]; [discriminate|].
    rewrite Hb. destruct b; [|discriminate].
    destruct (iloc_last_nonempty (x :: tmp)) as [r Hr]; [discriminate|].
    rewrite Hr. discriminate.
  - intros H. inversion H; subst. eapply load_raises; eassumption.
Qed.

Lemma loop_raises stock_list :
  forall df_export st e st',
    loop stock_list df_export st = (Err e, st') ->
    (e = NoTickerDefined /\ In "" stock_list) \/ (exists msg, e = DownloadError msg).
Proof.
  induction stock_list as [|stock rest IH]; intros df_export st e st' H.
  - discriminate.
  - rewrite loop_cons in H.
    destruct (step stock df_export st) as [[t1|e1] st1] eqn:Hstep.
    + destruct (IH _ _ _ _ H) as [[He Hin]|Hmsg]; [left|now right].
      split; [exact He|now right].
    + inversion H; subst.
      destruct (step_raises _ _ _ _ _ Hstep) as [[He Hs]|Hmsg]; [left|now right].
      split; [exact He|now left].
Qed.

(** X2: the only exceptions that leave [run] are the two that loading a
    ticker raises: "No ticker defined." (and then the split text holds an
    empty symbol) and the provider's own.  The IndexError and KeyError of
    [check_conditions] and [iloc] never get out: the driver skips empty frames
    and the default conditions name columns the annotator made. *)
Theorem X2_run_raises_only_load_errors
        (text : string) (pressed : bool) (st : state World) (e : exn) (st' : state World) :
  run download text pressed st = (Err e, st') ->
  (e = NoTickerDefined /\ In "" (split_comma_space text "")) \/
  (exists msg, e = DownloadError msg).
Proof.
  unfold run. destruct (String.eqb text ""); [discriminate|].
  destruct pressed; [|discriminate].
  unfold bind.
  destruct (loop (split_comma_space text "") [] st) as [[t|e0] st0] eqn:Hloop.
  - destruct (empty t); discriminate.
  - intros H. inversion H; subst. eapply loop_raises; eassumption.
Qed.

Lemma step_downloads stock df_export st :
  downloads (snd (step stock df_export st)) = downloads (snd (load stock st)).
Proof.
  rewrite step_unfold.
  destruct (load stock st) as [[tmp|e0] st1]; [|reflexivity].
  destruct (empty tmp); [reflexivity|].
  destruct (check_conditions tmp default_conditions) as [[|]|e]; try reflexivity.
  destruct (iloc_last tmp); reflexivity.
Qed.

Lemma step_ok_symbol stock df_export st t st' :
  step stock df_export st = (Ok t, st') -> stock <> "".
Proof.
  intros H Heq. subst stock. rewrite step_unfold, load_empty_symbol in H. discriminate.
Qed.

(** The trace after the loop: the tickers up to the one that raised, or all
    of them. *)
Lemma loop_downloads stock_list :
  forall df_export st,
    (exists k, downloads (snd (loop stock_list df_export st)) =
               downloads st ++ firstn k stock_list) /\
    (forall table, fst (loop stock_list df_export st) = Ok table ->
                   downloads (snd (loop stock_list df_export st)) =
                   downloads st ++ stock_list).
Proof.
  induction stock_list as [|stock rest IH]; intros df_export st.
  - split; [exists 0%nat|intros table _]; simpl; now rewrite app_nil_r.
  - rewrite loop_cons.
    pose proof (step_downloads stock df_export st) as Hd.
    rewrite load_downloads in Hd.
    destruct (step stock df_export st) as [[t1|e1] st1] eqn:Hstep; simpl in Hd.
    + pose proof (step_ok_symbol _ _ _ _ _ Hstep) as Hne.
      destruct (String.eqb_spec stock "") as [Heq|_]; [contradiction|].
      destruct (IH t1 st1) as [[k Hk] Hall]. split.
      * exists (S k). rewrite Hk, Hd, <- app_assoc. reflexivity.
      * intros table Ht. rewrite (Hall table Ht), Hd, <- app_assoc. reflexivity.
    + split; [|discriminate].
      destruct (String.eqb_spec stock "") as [Heq|_]; simpl.
      * exists 0%nat. now rewrite Hd.
      * exists 1%nat. now rewrite Hd.
Qed.

(** X3: the provider is called for the tickers of the list in their order,
    once each, and for nothing else: after the loop the trace has grown by a
    prefix of the list (up to the ticker that raised), and by the whole list
    when the loop ended with a table. *)
Theorem X3_downloads_follow_the_list
        (stock_list : list string) (df_export : export_table) (st : state World) :
  (exists k, downloads (snd (loop stock_list df_export st)) =
             downloads st ++ firstn k stock_list) /\
  (forall table, fst (loop stock_list df_export st) = Ok table ->
                 downloads (snd (loop stock_list df_export st)) =
                 downloads st ++ stock_list).
Proof. apply loop_downloads. Qed.

(** X4: what [run] leaves on the page.  Without text or without the button
    nothing is shown and the state is untouched (no download).  Otherwise
    every ticker of the split text was downloaded, in order, and the page is
    the message "No Suitable Tickers" or a table with at least one row: an
    empty table is never shown. *)
Theorem X4_run_page
        (text : string) (pressed : bool) (st : state World) (p : page) (st' : state World) :
  run download text pressed st = (Ok p, st') ->
  ((text = "" \/ pressed = false) /\ p = Nothing /\ st' = st) \/
  (text <> "" /\ pressed = true /\
   downloads st' = downloads st ++ split_comma_space text "" /\
   (p = Write_ "No Suitable Tickers" \/
    exists row table,
      p = Dataframe (row :: table) /\
      fst (loop (split_comma_space text "") [] st) = Ok (row :: table))).
Proof.
  unfold run. destruct (String.eqb_spec text "") as [->|Hne].
  - intros H. inversion H. left. repeat split. now left.
  - destruct pressed.
    + unfold bind. intros H. right.
      pose proof (proj2 (loop_downloads (split_comma_space text "") [] st)) as Hd.
      destruct (loop (split_comma_space text "") [] st) as [[t|e0] st0] eqn:Hloop;
        [|discriminate].
      simpl in Hd. specialize (Hd t eq_refl).
      destruct t as [|row t]; cbn [empty] in H; inversion H; subst.
      * repeat split; [exact Hne|exact Hd|now left].
      * repeat split; [exact Hne|exact Hd|]. right. now exists row, t.
    + intros H. inversion H. left. repeat split. now right.
Qed.

End DriverMore.

Lemma X2_witness :
  run demo_download "BBB, , AAA" true demo_start =
  (Err NoTickerDefined, {| world := tt; downloads := ["BBB"] |}) /\
  ((NoTickerDefined = NoTickerDefined /\ In "" (split_comma_space "BBB, , AAA" "")) \/
   (exists msg, NoTickerDefined = DownloadError msg)).
Proof.
  assert (H : run demo_download "BBB, , AAA" true demo_start =
              (Err NoTickerDefined, {| world := tt; downloads := ["BBB"] |}))
    by reflexivity.
  split; [exact H|].
  exact (X2_run_raises_only_load_errors unit demo_download "BBB, , AAA" true demo_start
           NoTickerDefined {| world := tt; downloads := ["BBB"] |} H).
Defined.

Lemma X4_witness :
  run demo_download "BBB, AAA" true demo_start =
  (Ok (Dataframe [tag "AAA" linear_400_last]),
   {| world := tt; downloads := ["BBB"; "AAA"] |}) /\
  downloads {| world := tt; downloads := ["BBB"; "AAA"] |} =
  downloads demo_start ++ split_comma_space "BBB, AAA" "".
Proof.
  assert (H : run demo_download "BBB, AAA" true demo_start =
              (Ok (Dataframe [tag "AAA" linear_400_last]),
               {| world := tt; downloads := ["BBB"; "AAA"] |}))
    by (vm_compute; reflexivity).
  split; [exact H|].
  destruct (X4_run_page unit demo_download "BBB, AAA" true demo_start _ _ H)
    as [(_ & Hp & _)|(_ & _ & Hd & _)]; [discriminate|exact Hd].
Defined.

(** ** Splitting the text input *)

Lemma split_unfold c rest cur :
  split_comma_space (String c rest) cur =
  if Ascii.eqb c "," && starts_space rest
  then cur :: split_comma_space (string_tail rest) ""
  else split_comma_space rest (cur ++ String c "")%string.
Proof.
  destruct c as [[|] [|] [|] [|] [|] [|] [|] [|]]; try reflexivity.
  destruct rest as [|c2 rest2]; [reflexivity|].
  destruct c2 as [[|] [|] [|] [|] [|] [|] [|] [|]]; reflexivity.
Qed.

Lemma append_nil_r (s : string) : (s ++ "")%string = s.
Proof. induction s as [|c s IH]; simpl; [reflexivity|now rewrite IH]. Qed.

Lemma append_assoc (a b c : string) : ((a ++ b) ++ c)%string = (a ++ b ++ c)%string.
Proof. induction a as [|x a IH]; simpl; [reflexivity|now rewrite IH]. Qed.

Lemma sep_start c rest :
  Ascii.eqb c "," && starts_space rest = true ->
  String c rest = (", " ++ string_tail rest)%string.
Proof.
  intros H. apply andb_true_iff in H as [Hc Hs].
  apply Ascii.eqb_eq in Hc. subst c.
  destruct rest as [|c2 r]; [discriminate|]. simpl in Hs.
  apply Ascii.eqb_eq in Hs. now subst c2.
Qed.

Lemma split_nonempty s : forall cur, split_comma_space s cur <> [].
Proof.
  remember (String.length s) as n eqn:Hn. revert s Hn.
  induction n as [n IH] using lt_wf_ind. intros s Hn cur.
  destruct s as [|c rest]; [discriminate|].
  rewrite split_unfold.
  destruct (Ascii.eqb c "," && starts_space rest); [discriminate|].
  apply (IH (String.length rest)); [subst n; simpl; lia|reflexivity].
Qed.

Lemma concat_cons sep x l :
  l <> [] -> String.concat sep (x :: l) = (x ++ sep ++ String.concat sep l)%string.
Proof. destruct l; [congruence|reflexivity]. Qed.

Lemma split_join s :
  forall cur, String.concat ", " (split_comma_space s cur) = (cur ++ s)%string.
Proof.
  remember (String.length s) as n eqn:Hn. revert s Hn.
  induction n as [n IH] using lt_wf_ind. intros s Hn cur.
  destruct s as [|c rest].
  - simpl. now rewrite append_nil_r.
  - rewrite split_unfold.
    destruct (Ascii.eqb c "," && starts_space rest) eqn:Hb.
    + rewrite concat_cons by apply split_nonempty.
      rewrite (IH (String.length (string_tail rest))); [|subst n; destruct rest; simpl; lia|reflexivity].
      now rewrite (sep_start c rest Hb).
    + rewrite (IH (String.length rest)); [|subst n; simpl; lia|reflexivity].
      now rewrite append_assoc.
Qed.

Lemma ends_comma_snoc cur c : ends_comma (cur ++ String c "") = Ascii.eqb c ",".
Proof.
  induction cur as [|x cur IH]; [reflexivity|].
  simpl. destruct (cur ++ String c "")%string eqn:E; [|exact IH].
  destruct cur; discriminate.
Qed.

Lemma has_sep_snoc cur c :
  has_sep (cur ++ String c "") = has_sep cur || (ends_comma cur && Ascii.eqb c " ").
Proof.
  induction cur as [|x cur IH]; [simpl; now rewrite andb_false_r|].
  cbn [append has_sep]. rewrite IH.
  destruct cur as [|y cur].
  - simpl. destruct (Ascii.eqb x ","), (Ascii.eqb c " "); reflexivity.
  - cbn [append starts_space ends_comma]. now rewrite orb_assoc.
Qed.

Lemma split_pieces s :
  forall cur,
    has_sep cur = false ->
    ends_comma cur && starts_space s = false ->
    Forall (fun p => has_sep p = false) (split_comma_space s cur).
Proof.
  remember (String.length s) as n eqn:Hn. revert s Hn.
  induction n as [n IH] using lt_wf_ind. intros s Hn cur Hcur Hjoin.
  destruct s as [|c rest].
  - simpl. now constructor.
  - rewrite split_unfold.
    destruct (Ascii.eqb c "," && starts_space rest) eqn:Hb.
    + constructor; [exact Hcur|].
      apply (IH (String.length (string_tail rest))); [subst n; destruct rest; simpl; lia|reflexivity| |]; reflexivity.
    + apply (IH (String.length rest)); [subst n; simpl; lia|reflexivity| |].
      * rewrite has_sep_snoc, Hcur. exact Hjoin.
      * now rewrite ends_comma_snoc.
Qed.

Lemma split_no_sep s :
  forall cur, has_sep s = false -> split_comma_space s cur = [(cur ++ s)%string].
Proof.
  induction s as [|c rest IH]; intros cur H.
  - simpl. now rewrite append_nil_r.
  - cbn [has_sep] in H. apply orb_false_iff in H as [Hb Hrest].
    rewrite split_unfold, Hb, IH by exact Hrest. now rewrite append_assoc.
Qed.

(** X5: [split(", ")] cuts the text at its separators and nowhere else:
    joining the pieces with the separator gives the text back, no piece holds
    a separator, there is always at least one piece, and a text without a
    separator (tickers typed with commas alone, say) is a single piece. *)
Theorem X5_split_comma_space_join (text : string) :
  String.concat ", " (split_comma_space text "") = text /\
  Forall (fun p => has_sep p = false) (split_comma_space text "") /\
  split_comma_space text "" <> [] /\
  (has_sep text = false -> split_comma_space text "" = [text]).
Proof.
  split; [apply split_join|]. split; [now apply split_pieces|].
  split; [apply split_nonempty|]. apply split_no_sep.
Qed.

Lemma X5_witness :
  has_sep "AAA,BBB" = false /\ split_comma_space "AAA,BBB" "" = ["AAA,BBB"].
Proof.
  split; [reflexivity|].
  apply (X5_split_comma_space_join "AAA,BBB"). reflexivity.
Defined.

(** ** What a passing row looks like *)

(** The flags of a row, read back from its other columns. *)
Lemma process_row_flags df r :
  In r (_process_ticker df) ->
  col_200MA_TREND_1M r = (col_200MA_TREND r >=? 30)%Z /\
  col_200MA_TREND_3M r = (col_200MA_TREND r >=? 90)%Z /\
  col_200MA_TREND_6M r = (col_200MA_TREND r >=? 180)%Z /\
  col_50MA_above r = float_gt (col_50MA r) (col_150MA r) /\
  col_150MA_gt_200MA r = float_gt (col_150MA r) (col_200MA r).
Proof.
  intros Hin. destruct (process_In _ _ Hin) as [i Hi].
  destruct (process_nth_error _ _ _ Hi) as [_ ->].
  cbn [annotate_row col_200MA_TREND_1M col_200MA_TREND_3M col_200MA_TREND_6M
       col_200MA_TREND col_50MA_above col_150MA_gt_200MA col_50MA col_150MA col_200MA].
  repeat split. apply andb_diag.
Qed.

Lemma iloc_last_In (df : list arow) r : iloc_last df = Ok r -> In r df.
Proof.
  intros H. destruct (iloc_last_inv _ _ H) as [pre ->].
  apply in_or_app. right. now left.
Qed.

Lemma float_gt_inv a b :
  float_gt a b = true -> exists x y, a = Fin x /\ b = Fin y /\ (y < x)%Q.
Proof.
  destruct a as [|x], b as [|y]; try discriminate. simpl. intros H.
  exists x, y. repeat split. now apply Qlt_bool_iff.
Qed.

(** The default conditions on a final row, as one boolean. *)
Lemma check_default_row (df : list arow) r :
  iloc_last df = Ok r ->
  check_conditions df default_conditions =
  Ok (col_200MA_TREND_1M r && (col_200MA_TREND_3M r && (col_200MA_TREND_6M r &&
      (col_50MA_above r && (col_150MA_gt_200MA r && (col_52WK_TREND r && true)))))).
Proof.
  intros Hr.
  rewrite (check_conditions_spec df r default_conditions Hr).
  - unfold default_conditions, passes_cell. cbn [forallb getitem lookup columns].
    cbn. now rewrite !negb_involutive.
  - intros c Hc. destruct (default_conditions_boolean r c Hc) as [b Hb].
    now exists (CBool b).
Qed.

(** X6: a final row passes the six default conditions exactly when its
    trend count is at least 180, its 50MA is above its 150MA, its 150MA above
    its 200MA, and 52WK_TREND holds: the 1M and 3M flags never decide.  On a
    passing row the three averages are defined and the 50MA is above the
    200MA as well, although no column compares the two. *)
Theorem X6_passing_row (df : list bar) (r : arow) :
  iloc_last (_process_ticker df) = Ok r ->
  (check_conditions (_process_ticker df) default_conditions = Ok true <->
   (180 <= col_200MA_TREND r)%Z /\
   float_gt (col_50MA r) (col_150MA r) = true /\
   float_gt (col_150MA r) (col_200MA r) = true /\
   col_52WK_TREND r = true) /\
  (check_conditions (_process_ticker df) default_conditions = Ok true ->
   exists a b c,
     col_50MA r = Fin a /\ col_150MA r = Fin b /\ col_200MA r = Fin c /\
     (c < b)%Q /\ (b < a)%Q /\ (c < a)%Q).
Proof.
  intros Hr.
  destruct (process_row_flags df r (iloc_last_In _ _ Hr)) as (H1 & H3 & H6 & H50 & H150).
  assert (Hiff : check_conditions (_process_ticker df) default_conditions = Ok true <->
                 (180 <= col_200MA_TREND r)%Z /\
                 float_gt (col_50MA r) (col_150MA r) = true /\
                 float_gt (col_150MA r) (col_200MA r) = true /\
                 col_52WK_TREND r = true).
  { rewrite (check_default_row _ r Hr), H1, H3, H6, H50, H150. split.
    - intros H. injection H as Hb.
      apply andb_true_iff in Hb as [_ Hb]. apply andb_true_iff in Hb as [_ Hb].
      apply andb_true_iff in Hb as [Ht Hb]. apply andb_true_iff in Hb as [Ha Hb].
      apply andb_true_iff in Hb as [Hb Hc]. apply andb_true_iff in Hc as [Hc _].
      apply Z.geb_le in Ht. now repeat split.
    - intros (Ht & Ha & Hb & Hc). rewrite Ha, Hb, Hc. f_equal.
      rewrite !andb_true_iff, !Z.geb_le. repeat split; lia. }
  split; [exact Hiff|].
  intros Hpass. apply Hiff in Hpass as (_ & Ha & Hb & _).
  destruct (float_gt_inv _ _ Ha) as (a & b & Ea & Eb & Hab).
  destruct (float_gt_inv _ _ Hb) as (b' & c & Eb' & Ec & Hbc).
  rewrite Eb in Eb'. inversion Eb'; subst b'.
  exists a, b, c. repeat split; try assumption.
  eapply Qlt_trans; eassumption.
Qed.

Lemma X6_witness :
  iloc_last (_process_ticker (linear_series 400)) = Ok linear_400_last /\
  (check_conditions (_process_ticker (linear_series 400)) default_conditions = Ok true <->
   (180 <= col_200MA_TREND linear_400_last)%Z /\
   float_gt (col_50MA linear_400_last) (col_150MA linear_400_last) = true /\
   float_gt (col_150MA linear_400_last) (col_200MA linear_400_last) = true /\
   col_52WK_TREND linear_400_last = true).
Proof.
  split; [exact linear_400_iloc_last|].
  exact (proj1 (X6_passing_row (linear_series 400) linear_400_last linear_400_iloc_last)).
Defined.

(** ** How much history a passing ticker needs *)

Lemma streak_length prev cnt ma : length (streak prev cnt ma) = length ma.
Proof.
  revert prev cnt. induction ma as [|m ma IH]; intros; simpl; [reflexivity|].
  now rewrite IH.
Qed.

Lemma float_gt_NaN_r a : float_gt a NaN = false.
Proof. now destruct a. Qed.

(** While the first [p] averages are missing the count stays at 0, and from
    there it grows by at most one per row. *)
Lemma streak_after_missing_prefix ma p :
  (forall j, (j < p)%nat -> nth j ma NaN = NaN) ->
  forall i, (0 <= nth i (streak None 0%Z ma) 0%Z <= Z.of_nat (i - p))%Z.
Proof.
  intros Hp. induction i as [|i IH].
  - rewrite streak_nth_0. simpl. lia.
  - destruct (Nat.lt_ge_cases (S i) (length ma)) as [Hi|Hi].
    + rewrite streak_nth_S by exact Hi.
      destruct (Nat.lt_ge_cases i p) as [Hip|Hip].
      * unfold next_cnt. rewrite (Hp i Hip), float_gt_NaN_r. lia.
      * pose proof (next_cnt_bounds (Some (nth i ma NaN)) (nth (S i) ma NaN)
                      (nth i (streak None 0%Z ma) 0%Z) (proj1 IH)).
        lia.
    + rewrite nth_overflow by (now rewrite streak_length). lia.
Qed.

Lemma process_trend_bounds df i r :
  unique_dates df ->
  nth_error (_process_ticker df) i = Some r ->
  (0 <= col_200MA_TREND r <= Z.of_nat (i - 199))%Z.
Proof.
  intros Hnd Hr. destruct (process_nth_error _ _ _ Hr) as [Hi ->].
  cbn [annotate_row col_200MA_TREND].
  rewrite trend_column_streak;
    [|exact Hnd|unfold rolling_mean; now rewrite rolling_length, !length_map].
  apply streak_after_missing_prefix.
  intros j Hj. apply rolling_nan_early. lia.
Qed.

(** X7: in the annotated frame of a price series (unique dates) the trend
    count of row [i] lies between 0 and [i - 199], the number of rows since
    the 200MA became available; hence a frame passes the default conditions
    only if it has at least 380 rows. *)
Theorem X7_passing_needs_380_rows (df : list bar) :
  unique_dates df ->
  (forall i r, nth_error (_process_ticker df) i = Some r ->
               (0 <= col_200MA_TREND r <= Z.of_nat (i - 199))%Z) /\
  (check_conditions (_process_ticker df) default_conditions = Ok true ->
   (380 <= length df)%nat).
Proof.
  intros Hnd. split.
  - intros i r Hr. exact (process_trend_bounds df i r Hnd Hr).
  - intros Hpass.
    destruct (_process_ticker df) as [|x l] eqn:E; [discriminate|].
    destruct (iloc_last_nonempty (x :: l)) as [r Hr]; [discriminate|].
    rewrite (check_default_row _ r Hr) in Hpass. injection Hpass as Hb.
    apply andb_true_iff in Hb as [_ Hb]. apply andb_true_iff in Hb as [_ Hb].
    apply andb_true_iff in Hb as [H6 _].
    rewrite <- E in Hr.
    destruct (process_row_flags df r (iloc_last_In _ _ Hr)) as (_ & _ & E6 & _).
    rewrite E6 in H6. apply Z.geb_le in H6.
    apply (iloc_last_nth_error (_process_ticker df) r) in Hr.
    rewrite process_length in Hr.
    pose proof (process_trend_bounds df _ r Hnd Hr). lia.
Qed.

Lemma X7_witness :
  unique_dates (linear_series 400) /\
  check_conditions (_process_ticker (linear_series 400)) default_conditions = Ok true /\
  (380 <= length (linear_series 400))%nat.
Proof.
  assert (Hpass : check_conditions (_process_ticker (linear_series 400)) default_conditions
                  = Ok true) by (vm_compute; reflexivity).
  split; [apply linear_unique|]. split; [exact Hpass|].
  exact (proj2 (X7_passing_needs_380_rows (linear_series 400) (linear_unique 400)) Hpass).
Defined.

(** ** Where the averages are defined *)

Lemma all_fin_inv xs qs : all_fin xs = Some qs -> xs = map Fin qs.
Proof.
  revert qs. induction xs as [|x xs IH]; simpl; intros qs H.
  - now inversion H.
  - destruct x as [|q]; [discriminate|].
    destruct (all_fin xs) as [qs'|]; [|discriminate].
    inversion H; subst. simpl. now rewrite (IH qs').
Qed.

(** A rolling aggregate is defined exactly on the rows whose window is full
    of defined closes. *)
Lemma rolling_defined_iff k agg (df : list bar) i :
  (1 <= k)%nat -> (i < length df)%nat ->
  nth i (rolling k agg (map Close df)) NaN <> NaN <->
  (k <= i + 1)%nat /\
  exists w, map Close (firstn k (skipn (i + 1 - k) df)) = map Fin w.
Proof.
  intros Hk Hi. split.
  - intros Hdef. rewrite rolling_nth in Hdef by (now rewrite length_map).
    unfold window in Hdef.
    destruct (Nat.leb_spec k (i + 1)) as [Hki|Hki]; [|congruence].
    split; [exact Hki|].
    destruct (all_fin (firstn k (skipn (i + 1 - k) (map Close df)))) as [qs|] eqn:E;
      [|congruence].
    exists qs. apply all_fin_inv in E. now rewrite skipn_map, firstn_map in E.
  - intros (Hki & w & Hw).
    rewrite (rolling_full k agg df i w Hk Hki Hi Hw). discriminate.
Qed.

(** ** No look-ahead *)

Lemma firstn_seq n : forall start len, firstn n (seq start len) = seq start (min n len).
Proof.
  induction n as [|n IH]; intros start [|len]; simpl; try reflexivity.
  now rewrite IH.
Qed.

Lemma window_firstn k n (xs : list float) i :
  (i < n)%nat -> window k (firstn n xs) i = window k xs i.
Proof.
  intros Hi. unfold window.
  destruct (Nat.leb_spec k (i + 1)) as [Hk|Hk]; [|reflexivity].
  rewrite skipn_firstn_comm, firstn_firstn. f_equal. f_equal. lia.
Qed.

Lemma rolling_firstn k agg n (xs : list float) :
  rolling k agg (firstn n xs) = firstn n (rolling k agg xs).
Proof.
  unfold rolling. rewrite firstn_map, firstn_seq, length_firstn.
  apply map_ext_in. intros i Hi. apply in_seq in Hi.
  rewrite window_firstn by lia. reflexivity.
Qed.

Lemma streak_firstn ma :
  forall n prev cnt, streak prev cnt (firstn n ma) = firstn n (streak prev cnt ma).
Proof.
  induction ma as [|m ma IH]; intros [|n] prev cnt; try reflexivity.
  cbn [firstn streak]. now rewrite IH.
Qed.

Lemma unique_dates_firstn n df : unique_dates df -> unique_dates (firstn n df).
Proof.
  unfold unique_dates. intros H.
  rewrite <- (firstn_skipn n df), map_app in H.
  now apply NoDup_app_remove_r in H.
Qed.

Lemma nth_firstn_lt (A : Type) n (l : list A) i d :
  (i < n)%nat -> nth i (firstn n l) d = nth i l d.
Proof.
  intros Hi. rewrite nth_firstn.
  destruct (Nat.ltb_spec i n); [reflexivity|lia].
Qed.

(** X10: the annotator never looks ahead.  For a price series (unique
    dates), annotating its first [n] rows gives the first [n] rows of its
    annotation: the rows that follow a day change none of that day's
    columns. *)
Theorem X10_annotator_no_look_ahead (df : list bar) (n : nat) :
  unique_dates df ->
  _process_ticker (firstn n df) = firstn n (_process_ticker df).
Proof.
  intros Hnd.
  assert (Hlen200 : forall d : list bar,
             length (rolling_mean 200 (map Close d)) = length (map Date d))
    by (intros d; unfold rolling_mean; now rewrite rolling_length, !length_map).
  unfold _process_ticker at 2. rewrite firstn_map, firstn_seq.
  unfold _process_ticker. rewrite length_firstn.
  apply map_ext_in. intros i Hi. apply in_seq in Hi.
  rewrite (trend_column_streak (map Date (firstn n df)));
    [|exact (unique_dates_firstn n df Hnd)|apply Hlen200].
  rewrite (trend_column_streak (map Date df)); [|exact Hnd|apply Hlen200].
  rewrite <- !firstn_map.
  unfold rolling_mean, rolling_max, rolling_min.
  rewrite !rolling_firstn, streak_firstn.
  rewrite !nth_firstn_lt by lia. reflexivity.
Qed.

Lemma X10_witness :
  unique_dates (linear_series 400) /\
  _process_ticker (firstn 203 (linear_series 400)) =
  firstn 203 (_process_ticker (linear_series 400)).
Proof.
  split; [apply linear_unique|].
  exact (X10_annotator_no_look_ahead (linear_series 400) 203 (linear_unique 400)).
Defined.

(** ** What the trend count says about the last rows *)




(** ** The rows of the result table *)

Section TableFacts.

Variable World : Type.
Variable download : string -> World -> (list bar + string) * World.

(** X13: the loop over a list in two parts is the loop over the first part
    followed, from the table and the state it ends with, by the loop over the
    second part, and an exception of the first part is the outcome of the
    whole; the loop only appends: the table it starts from is the beginning of
    the table it ends with. *)
Theorem X13_loop_composes (pre post : list string) (df_export : export_table)
        (st : state World) :
  run_loop download (pre ++ post) df_export st =
  match run_loop download pre df_export st with
  | (Ok df_export', st1) => run_loop download post df_export' st1
  | (Err e, st1) => (Err e, st1)
  end /\
  (forall table st', run_loop download pre df_export st = (Ok table, st') ->
                     exists rows, table = df_export ++ rows /\
                                  (length rows <= length pre)%nat).
Proof.
  split; [apply loop_app|].
  intros table st' H.
  destruct (loop_picked World download pre df_export st table st' H) as (rows & -> & Hp).
  exists rows. split; [reflexivity|].
  exact (picked_length World download _ _ _ _ Hp).
Qed.

End TableFacts.

(** ** The averages become available in order *)

Lemma window_narrow k k' (df : list bar) i (w : list Q) :
  (k' <= k)%nat -> (k <= i + 1)%nat ->
  map Close (firstn k (skipn (i + 1 - k) df)) = map Fin w ->
  map Close (firstn k' (skipn (i + 1 - k') df)) = map Fin (skipn (k - k') w).
Proof.
  intros Hk' Hk Hw.
  replace (i + 1 - k')%nat with ((k - k') + (i + 1 - k))%nat by lia.
  rewrite <- skipn_skipn, firstn_skipn_comm.
  replace (k - k' + k')%nat with k by lia.
  now rewrite <- !skipn_map, Hw.
Qed.

Lemma rolling_defined_narrow k k' agg agg' (df : list bar) i :
  (1 <= k')%nat -> (k' <= k)%nat -> (i < length df)%nat ->
  nth i (rolling k agg (map Close df)) NaN <> NaN ->
  nth i (rolling k' agg' (map Close df)) NaN <> NaN.
Proof.
  intros H1 Hk Hi Hdef.
  apply (rolling_defined_iff k agg df i ltac:(lia) Hi) in Hdef as (Hki & w & Hw).
  apply (rolling_defined_iff k' agg' df i H1 Hi). split; [lia|].
  exists (skipn (k - k') w). now apply window_narrow.
Qed.

(** X15: on every annotated row, a defined 200MA comes with a defined
    150MA, and a defined 150MA with a defined 50MA: the window of the shorter
    average is the end of the window of the longer one. *)
Theorem X15_averages_defined_in_order (df : list bar) (i : nat) (r : arow) :
  nth_error (_process_ticker df) i = Some r ->
  (col_200MA r <> NaN -> col_150MA r <> NaN) /\
  (col_150MA r <> NaN -> col_50MA r <> NaN).
Proof.
  intros Hr. destruct (process_nth_error _ _ _ Hr) as [Hi ->].
  cbn [annotate_row col_50MA col_150MA col_200MA]. unfold rolling_mean.
  split; apply rolling_defined_narrow; (lia || exact Hi).
Qed.

Lemma X15_witness :
  In vee_200_last (_process_ticker (series vee 200)) /\
  (col_200MA vee_200_last <> NaN -> col_150MA vee_200_last <> NaN) /\
  (col_150MA vee_200_last <> NaN -> col_50MA vee_200_last <> NaN).
Proof.
  assert (Hr : nth_error (_process_ticker (series vee 200)) 199 = Some vee_200_last)
    by (vm_compute; reflexivity).
  split; [exact (nth_error_In _ 199 Hr)|].
  exact (X15_averages_defined_in_order (series vee 200) 199 vee_200_last Hr).
Defined.

(** ** The order of the conditions *)

Lemma forallb_same_elements (A : Type) (f : A -> bool) l1 l2 :
  (forall x, In x l1 <-> In x l2) -> forallb f l1 = forallb f l2.
Proof.
  intros H.
  destruct (forallb f l1) eqn:E1, (forallb f l2) eqn:E2; try reflexivity.
  - rewrite forallb_forall in E1.
    assert (E : forallb f l2 = true)
      by (apply forallb_forall; intros x Hx; apply E1, H, Hx).
    congruence.
  - rewrite forallb_forall in E2.
    assert (E : forallb f l1 = true)
      by (apply forallb_forall; intros x Hx; apply E2, H, Hx).
    congruence.
Qed.

(** X17: when every named column exists in the final row, the answer of
    [check_conditions] depends on the set of names alone: neither the order
    of the names nor a repeated name changes it. *)
Theorem X17_conditions_order_irrelevant
        (df : list arow) (r : arow) (l1 l2 : list string) :
  iloc_last df = Ok r ->
  (forall c, In c l1 -> exists v, getitem r c = Ok v) ->
  (forall c, In c l1 <-> In c l2) ->
  check_conditions df l1 = check_conditions df l2.
Proof.
  intros Hr Hcols Hsame.
  rewrite (check_conditions_spec df r l1 Hr Hcols).
  rewrite (check_conditions_spec df r l2 Hr).
  - f_equal. now apply forallb_same_elements.
  - intros c Hc. apply Hcols, Hsame, Hc.
Qed.

Lemma X17_witness :
  check_conditions (_process_ticker (linear_series 400))
                   ["52WK_TREND"; "Volume"; "50MA>>"] =
  check_conditions (_process_ticker (linear_series 400))
                   ["50MA>>"; "Volume"; "52WK_TREND"; "Volume"].
Proof.
  apply (X17_conditions_order_irrelevant
           (_process_ticker (linear_series 400)) linear_400_last
           ["52WK_TREND"; "Volume"; "50MA>>"]
           ["50MA>>"; "Volume"; "52WK_TREND"; "Volume"]
           linear_400_iloc_last).
  - intros c Hc. simpl in Hc.
    repeat (destruct Hc as [<-|Hc]; [eexists; reflexivity|]). contradiction.
  - intros c. simpl. tauto.
Defined.

(** ** Every row of the table passed *)

Section TableSound.

Variable World : Type.
Variable download : string -> World -> (list bar + string) * World.

Lemma load_ok ticker st tmp st1 :
  load_ticker_data download ticker st = (Ok tmp, st1) ->
  ticker <> "" /\
  exists df, fst (download ticker (world st)) = inl df /\ tmp = _process_ticker df.
Proof.
  intros H.
  destruct (String.eqb_spec ticker "") as [->|Hne].
  - rewrite load_empty_symbol in H. discriminate.
  - split; [exact Hne|]. rewrite load_symbol in H by exact Hne.
    destruct (fst (download ticker (world st))) as [df|msg]; [|discriminate].
    exists df. split; [reflexivity|]. now inversion H.
Qed.

Lemma picked_rows_meet_rules st stock_list rows st' :
  picked download st stock_list rows st' ->
  Forall (row_meets_rules stock_list) rows.
Proof.
  induction 1 as [st|st stock tmp st1 rest rows st2 Hload Hrej Hp IH
                 |st stock tmp r st1 rest rows st2 Hload Hr Hpass Hp IH].
  - constructor.
  - eapply Forall_impl; [|exact IH].
    intros row (s & t & a & b & c & Hin & Hrow). exists s, t, a, b, c.
    split; [now right|exact Hrow].
  - constructor.
    + destruct (load_ok _ _ _ _ Hload) as (_ & df & _ & ->).
      rewrite (check_default_row _ r Hr) in Hpass. injection Hpass as Hb.
      apply andb_true_iff in Hb as [_ Hb]. apply andb_true_iff in Hb as [_ Hb].
      apply andb_true_iff in Hb as [H6 Hb]. apply andb_true_iff in Hb as [H50 Hb].
      apply andb_true_iff in Hb as [H150 Hb]. apply andb_true_iff in Hb as [H52 _].
      destruct (process_row_flags df r (iloc_last_In _ _ Hr)) as (_ & _ & E6 & E50 & E150).
      rewrite E6 in H6. apply Z.geb_le in H6.
      rewrite E50 in H50. rewrite E150 in H150.
      destruct (float_gt_inv _ _ H50) as (a & b & Ea & Eb & Hab).
      destruct (float_gt_inv _ _ H150) as (b' & c & Eb' & Ec & Hbc).
      rewrite Eb in Eb'. injection Eb' as <-.
      exists stock, (col_200MA_TREND r), a, b, c.
      split; [now left|]. unfold tag. cbn [lookup columns String.eqb Ascii.eqb Bool.eqb].
      rewrite Ea, Eb, Ec, H52. now repeat split.
    + eapply Forall_impl; [|exact IH].
      intros row (s & t & a & b & c & Hin & Hrow). exists s, t, a, b, c.
      split; [now right|exact Hrow].
Qed.

(** X18: every row of the table that the loop ends with (started from an
    empty table) is tagged with a ticker of the list and shows a trend count
    of at least 180, defined averages with 50MA above 150MA above 200MA,
    and a true 52WK_TREND. *)
Theorem X18_table_rows_meet_rules
        (stock_list : list string) (st : state World)
        (table : export_table) (st' : state World) :
  run_loop download stock_list [] st = (Ok table, st') ->
  Forall (row_meets_rules stock_list) table.
Proof.
  intros H.
  destruct (loop_picked World download stock_list [] st table st' H) as (rows & -> & Hp).
  simpl. exact (picked_rows_meet_rules _ _ _ _ Hp).
Qed.

End TableSound.

Lemma X18_witness :
  run_loop demo_download ["BBB"; "AAA"] [] demo_start =
  (Ok [tag "AAA" linear_400_last], {| world := tt; downloads := ["BBB"; "AAA"] |}) /\
  Forall (row_meets_rules ["BBB"; "AAA"]) [tag "AAA" linear_400_last].
Proof.
  assert (H : run_loop demo_download ["BBB"; "AAA"] [] demo_start =
              (Ok [tag "AAA" linear_400_last],
               {| world := tt; downloads := ["BBB"; "AAA"] |}))
    by (vm_compute; reflexivity).
  split; [exact H|].
  exact (X18_table_rows_meet_rules unit demo_download ["BBB"; "AAA"] demo_start _ _ H).
Defined.
